(** * RAWSim-O experiment scripts: a shallow embedding and its properties

    The development follows three scripts of [Material/Scripts]:
    - [paralledExperiments.py] and [oneExperiment.py], the bounded
      subprocess launcher (queue construction, [StartNew], [CheckRunning]
      and the driving loop);
    - [fixFootprints.py], the CSV column fix-up.

    Python lists are Rocq lists (indexing and in-place update through
    stdpp's lookup and insert, with the [IndexError] of the source written
    out), Python [int]s that are counts are [nat], other integers are [Z],
    [str] is [string].  The operating system (clock, child processes,
    console) is an explicit part of the launcher's state. *)

From Stdlib Require Import ZArith String Ascii List Lia DecimalString.
From stdpp Require Import base list strings gmap.

Local Open Scope string_scope.
Local Open Scope list_scope.
Local Open Scope nat_scope.

(** ** Python helpers *)

Module Py.

(** [range(lo, hi)] with step 1; empty when [hi <= lo]. *)
Definition range (lo hi : Z) : list Z :=
  map (fun i : nat => (lo + Z.of_nat i)%Z) (seq 0 (Z.to_nat (hi - lo))).

(** [l[i]] for a Python index [i]: a negative index counts from the end;
    [None] stands for [IndexError]. *)
Definition index {A} (l : list A) (i : Z) : option A :=
  if (i <? 0)%Z then
    if (i <? - Z.of_nat (length l))%Z then None
    else l !! Z.to_nat (Z.of_nat (length l) + i)
  else l !! Z.to_nat i.

(** [del l[i]]: the list without its element at Python index [i];
    [None] stands for [IndexError]. *)
Definition del {A} (l : list A) (i : Z) : option (list A) :=
  if (i <? 0)%Z then
    if (i <? - Z.of_nat (length l))%Z then None
    else Some (delete (Z.to_nat (Z.of_nat (length l) + i)) l)
  else if (i <? Z.of_nat (length l))%Z then Some (delete (Z.to_nat i) l)
  else None.

(** [s.rsplit(sep, 1)] for a one-character separator, as the pair
    (before, after) around the LAST occurrence of [sep]; [None] when [sep]
    does not occur. *)
Fixpoint rsplit_last (sep : ascii) (s : string) : option (string * string) :=
  match s with
  | EmptyString => None
  | String c s' =>
      match rsplit_last sep s' with
      | Some (a, b) => Some (String c a, b)
      | None => if Ascii.eqb c sep then Some (EmptyString, s') else None
      end
  end.

(** [s.rsplit(sep, 1)]: a list of two strings, or of [s] alone when the
    separator does not occur. *)
Definition rsplit1 (sep : ascii) (s : string) : list string :=
  match rsplit_last sep s with
  | Some (a, b) => [a; b]
  | None => [s]
  end.

End Py.

(** ** Job queue construction *)

(** An entry of [FileNames]: (instance, setting, controller). *)
Abbreviation Triple := (string * string * string)%type.

(** A Job: the argument list handed to [Popen]. *)
Abbreviation Job := (list string).

(** The folder constants at the head of the scripts. *)
Record Folders : Type := {
  working_directory : string;
  experimentFolder : string;
  InstanceFolder : string;
  SettingFolder : string;
  controllerFolder : string
}.

(** ["{}\{}.xlayo".format(folder, name)]: in a Python literal the
    sequence backslash-brace is kept as it is, so the result is the folder,
    a backslash, the name and the extension. *)
Definition path_of (folder name ext : string) : string :=
  folder +:+ "\" +:+ name +:+ ext.

(** [instance.rsplit('r', 1)[0]] *)
Definition base_instance (instance : string) : string :=
  match Py.rsplit1 "r" instance with
  | a :: _ => a
  | [] => instance
  end.

(** ["{}\{}".format(experimentFolder, instance.rsplit('r', 1)[0])] *)
Definition outputDir (F : Folders) (instance : string) : string :=
  experimentFolder F +:+ "\" +:+ base_instance instance.

(** Loop body of [paralledExperiments.py], lines 42-46. *)
Definition job_paralled (F : Folders) (t : Triple) : Job :=
  let '(instance, setting, controller) := t in
  let instPath := path_of (InstanceFolder F) instance ".xlayo" in
  let settPath := path_of (SettingFolder F) setting ".xsett" in
  let contPath := path_of (controllerFolder F) controller ".xconf" in
  ["dotnet"; "run"; instPath; settPath; contPath; outputDir F instance].

(** Loop body of [oneExperiment.py], lines 26-30: the output directory is
    the experiment folder itself. *)
Definition job_one (F : Folders) (t : Triple) : Job :=
  let '(instance, setting, controller) := t in
  let instPath := path_of (InstanceFolder F) instance ".xlayo" in
  let settPath := path_of (SettingFolder F) setting ".xsett" in
  let contPath := path_of (controllerFolder F) controller ".xconf" in
  ["dotnet"; "run"; instPath; settPath; contPath; experimentFolder F].

(** [cmds = []; for i in range(Iteration): for t in FileNames:
    cmds.append(job t)] *)
Definition build_cmds (job : Triple -> Job) (Iteration : Z)
    (FileNames : list Triple) : list Job :=
  fold_left
    (fun cmds (_ : Z) =>
       fold_left (fun cmds t => cmds ++ [job t]) FileNames cmds)
    (Py.range 0 Iteration) [].

Definition cmds_paralled (F : Folders) := build_cmds (job_paralled F).
Definition cmds_one (F : Folders) := build_cmds (job_one F).

(** The specification's reading of the output-directory suffix: the name
    without a trailing "r<number>" (the letter r followed by one or more
    decimal digits at the very end); a name without such a suffix is
    kept. *)
Definition is_digit (c : ascii) : bool :=
  let n := nat_of_ascii c in (48 <=? n) && (n <=? 57).

Fixpoint skip_digits (cs : list ascii) : list ascii :=
  match cs with
  | c :: cs' => if is_digit c then skip_digits cs' else cs
  | [] => []
  end.

Definition strip_r_number (s : string) : string :=
  let r := rev (list_ascii_of_string s) in
  let r' := skip_digits r in
  if length r' <? length r then
    match r' with
    | c :: base =>
        if Ascii.eqb c "r" then string_of_list_ascii (rev base) else s
    | [] => s
    end
  else s.

(** [c in s] for a character. *)
Fixpoint occurs (c : ascii) (s : string) : bool :=
  match s with
  | EmptyString => false
  | String d s' => Ascii.eqb d c || occurs c s'
  end.

Fixpoint all_digits (s : string) : bool :=
  match s with
  | EmptyString => true
  | String d s' => is_digit d && all_digits s'
  end.

(** The folder constants of [paralledExperiments.py], lines 9-14.  In
    the non-raw literals every backslash is followed by a character that
    starts no escape sequence, so each is kept. *)
Definition paralled_folders : Folders :=
  {| working_directory := "D:\codes\RAWSim-O\RAWSimO.CLI";
     experimentFolder := "D:\codes\RAWSim-OData\result0703";
     InstanceFolder := "D:\codes\RAWSim-O\Material\Instances\SquareLayouts";
     SettingFolder := "D:\codes\RAWSim-O\Material\configFiles";
     controllerFolder := "D:\codes\RAWSim-O\Material\configFiles" |}.

(** ** The clock: [datetime.now()], [replace(tzinfo=...)], [strftime] *)

Module DateTime.

(** A [datetime] object: the civil fields and the attached [tzinfo]
    (its UTC offset in seconds; [None] for a naive object).  The
    microsecond field is never read by the scripts and is left out. *)
Record t : Type := {
  year : Z; month : Z; day : Z;
  hour : Z; minute : Z; second : Z;
  tzinfo : option Z
}.

(** Civil date of a day count since 1970-01-01 (proleptic Gregorian
    calendar, as the [datetime] module uses). *)
Definition civil_from_days (z0 : Z) : Z * Z * Z :=
  let z := (z0 + 719468)%Z in
  let era := (z / 146097)%Z in
  let doe := (z - era * 146097)%Z in
  let yoe := ((doe - doe / 1460 + doe / 36524 - doe / 146096) / 365)%Z in
  let doy := (doe - (365 * yoe + yoe / 4 - yoe / 100))%Z in
  let mp := ((5 * doy + 2) / 153)%Z in
  let d := (doy - (153 * mp + 2) / 5 + 1)%Z in
  let m := (if (mp <? 10)%Z then mp + 3 else mp - 9)%Z in
  let y := (yoe + era * 400 + (if (m <=? 2)%Z then 1 else 0))%Z in
  (y, m, d).

(** The civil fields of the instant [posix] (seconds since the epoch) on
    a clock that runs [offset] seconds east of UTC. *)
Definition fields_at (offset posix : Z) (tz : option Z) : t :=
  let l := (posix + offset)%Z in
  let '(y, m, d) := civil_from_days (l / 86400) in
  let sod := (l mod 86400)%Z in
  {| year := y; month := m; day := d;
     hour := (sod / 3600)%Z; minute := (sod / 60 mod 60)%Z;
     second := (sod mod 60)%Z; tzinfo := tz |}.

(** [datetime.now()], called without a [tz] argument: the host's local
    date and time as a naive object. *)
Definition now (host_utcoffset posix : Z) : t :=
  fields_at host_utcoffset posix None.

(** [dt.replace(tzinfo=tz)]: the same fields with another [tzinfo]
    attached; no field is converted. *)
Definition replace_tzinfo (dt : t) (tz : option Z) : t :=
  {| year := year dt; month := month dt; day := day dt;
     hour := hour dt; minute := minute dt; second := second dt;
     tzinfo := tz |}.

(** [timezone(timedelta(hours=h))] as a UTC offset in seconds. *)
Definition timezone_hours (h : Z) : option Z := Some (h * 3600)%Z.

Definition digit (n : Z) : ascii := ascii_of_nat (48 + Z.to_nat n).

(** A zero-padded two-digit decimal field, as [%m], [%d], [%H], [%M] and
    [%S] print it. *)
Definition two_digits (n : Z) : string :=
  String (digit (n / 10)) (String (digit (n mod 10)) EmptyString).

(** [dt.strftime("%m%d%H%M%S")] *)
Definition strftime_mdHMS (dt : t) : string :=
  two_digits (month dt) +:+ two_digits (day dt) +:+ two_digits (hour dt)
  +:+ two_digits (minute dt) +:+ two_digits (second dt).

(** The time of the instant [posix] shown on a clock at UTC+8, formatted
    the same way: what the specification's words describe. *)
Definition seed_utc8 (posix : Z) : string :=
  strftime_mdHMS (fields_at (8 * 3600) posix (timezone_hours 8)).

End DateTime.

(** [datetime.now().replace(tzinfo=timezone(timedelta(hours=8)))
      .strftime("%m%d%H%M%S")], lines 56-57 of [StartNew]. *)
Definition seed_at (host_utcoffset posix : Z) : string :=
  DateTime.strftime_mdHMS
    (DateTime.replace_tzinfo (DateTime.now host_utcoffset posix)
       (DateTime.timezone_hours 8)).

(** ** The launcher: [paralledExperiments.py] *)

(** What a run depends on: the configuration constants of the script and
    the behaviour of the operating system during the run. *)
Record Env : Type := {
  ParalleledNum : nat;          (* the parallelism limit *)
  FileNames : list Triple;
  cwd_of : string;              (* [working_directory] *)
  boot_time : Z;                (* POSIX time when the script starts *)
  host_utcoffset : Z;           (* the host's time zone, seconds east of UTC *)
  (* seconds after its creation at which child number [k] exits;
     [None] for a child that never exits *)
  runtime : nat -> option nat;
  exitcode : nat -> Z           (* its [returncode] *)
}.

(** A [Popen] object. *)
Record Proc : Type := {
  pid : nat;                    (* children are numbered as they are created *)
  argv : Job;
  cwd : string;
  started : nat
}.

(** What the script does to the outside world, in order. *)
Inductive Event : Type :=
| Slept (secs : nat)
| Spawned (p : Proc)
| Polled (p : Proc) (r : option Z)
| Started (pos total : nat) (t : Triple).   (* the progress message *)

Record State : Type := {
  (* the globals of the module *)
  NextURLNo : nat;
  Processes : list Proc;
  cmds : list Job;
  (* the operating system *)
  clock : nat;                  (* seconds since the script started *)
  nchildren : nat;              (* children created so far *)
  log : list Event              (* oldest event first *)
}.

Definition set_NextURLNo (n : nat) (s : State) : State :=
  {| NextURLNo := n; Processes := Processes s; cmds := cmds s;
     clock := clock s; nchildren := nchildren s; log := log s |}.

Definition set_Processes (l : list Proc) (s : State) : State :=
  {| NextURLNo := NextURLNo s; Processes := l; cmds := cmds s;
     clock := clock s; nchildren := nchildren s; log := log s |}.

Definition set_cmds (c : list Job) (s : State) : State :=
  {| NextURLNo := NextURLNo s; Processes := Processes s; cmds := c;
     clock := clock s; nchildren := nchildren s; log := log s |}.

Definition emit (e : Event) (s : State) : State :=
  {| NextURLNo := NextURLNo s; Processes := Processes s; cmds := cmds s;
     clock := clock s; nchildren := nchildren s; log := log s ++ [e] |}.

Definition advance (secs : nat) (s : State) : State :=
  {| NextURLNo := NextURLNo s; Processes := Processes s; cmds := cmds s;
     clock := clock s + secs; nchildren := nchildren s; log := log s |}.

Definition new_child (s : State) : State :=
  {| NextURLNo := NextURLNo s; Processes := Processes s; cmds := cmds s;
     clock := clock s; nchildren := S (nchildren s); log := log s |}.

(** State at the start of the script, after the queue is built. *)
Definition init (queue : list Job) : State :=
  {| NextURLNo := 0; Processes := []; cmds := queue;
     clock := 0; nchildren := 0; log := [] |}.

(** *** Statements: state, exceptions, and the states passed through *)

Inductive exn : Type := IndexError | ZeroDivisionError.

Inductive outcome (A : Type) : Type :=
| Ok (a : A) (s : State)
| Raise (e : exn) (s : State)
| OutOfFuel (s : State).
Arguments Ok {A} a s.
Arguments Raise {A} e s.
Arguments OutOfFuel {A} s.

Definition final {A} (o : outcome A) : State :=
  match o with Ok _ s | Raise _ s | OutOfFuel s => s end.

(** A computation returns the states it passes through, one after each
    statement that it executes, and its outcome. *)
Definition M (A : Type) : Type := State -> list State * outcome A.

Definition ret {A} (a : A) : M A := fun s => ([], Ok a s).

Definition bind {A B} (m : M A) (f : A -> M B) : M B := fun s =>
  match m s with
  | (t1, Ok a s1) => let '(t2, o) := f a s1 in (t1 ++ t2, o)
  | (t1, Raise e s1) => (t1, Raise e s1)
  | (t1, OutOfFuel s1) => (t1, OutOfFuel s1)
  end.

#[global] Instance M_ret : MRet M := @ret.
#[global] Instance M_bind : MBind M := fun A B f m => bind m f.

Definition get : M State := fun s => ([], Ok s s).
Definition step (f : State -> State) : M unit := fun s => ([f s], Ok tt (f s)).
Definition raise {A} (e : exn) : M A := fun s => ([], Raise e s).
Definition out_of_fuel {A} : M A := fun s => ([], OutOfFuel s).

Fixpoint for_each {A} (xs : list A) (body : A -> M unit) : M unit :=
  match xs with
  | [] => ret tt
  | x :: xs' => body x ;; for_each xs' body
  end.

(** *** The operating system *)

(** [time.sleep(secs)] *)
Definition sleep (secs : nat) : M unit :=
  step (fun s => emit (Slept secs) (advance secs s)).

(** The exit status of a child at a given time: [None] while it runs. *)
Definition exit_status (E : Env) (p : Proc) (now : nat) : option Z :=
  match runtime E (pid p) with
  | Some d => if started p + d <=? now then Some (exitcode E (pid p)) else None
  | None => None
  end.

(** [p.poll()] *)
Definition poll (E : Env) (p : Proc) : M (option Z) := fun s =>
  let r := exit_status E p (clock s) in
  let s' := emit (Polled p r) s in
  ([s'], Ok r s').

(** [Popen(args, cwd=dir, stdout=DEVNULL)]; the launch itself is taken to
    succeed, and like a poll it takes no time on the clock. *)
Definition Popen (args : Job) (dir : string) : M Proc := fun s =>
  let p := {| pid := nchildren s; argv := args; cwd := dir;
              started := clock s |} in
  let s' := emit (Spawned p) (new_child s) in
  ([s'], Ok p s').

(** [print(f"({pos}/{total}) Started to Process: ", t)] *)
Definition print_started (pos total : nat) (t : Triple) : M unit :=
  step (emit (Started pos total t)).

(** *** [StartNew], lines 51-62 *)

Definition StartNew (E : Env) : M unit :=
  s ← get;
  let seed := seed_at (host_utcoffset E) (boot_time E + Z.of_nat (clock s)) in
  (* cmds[NextURLNo].append(seed) *)
  match cmds s !! NextURLNo s with
  | None => raise IndexError
  | Some c =>
      step (set_cmds (<[NextURLNo s := c ++ [seed]]> (cmds s))) ;;
      (* proc = Popen(cmds[NextURLNo], cwd=working_directory, stdout=DEVNULL) *)
      s ← get;
      match cmds s !! NextURLNo s with
      | None => raise IndexError
      | Some args =>
          proc ← Popen args (cwd_of E);
          (* print(..., FileNames[NextURLNo % len(FileNames)]) *)
          s ← get;
          match length (FileNames E) with
          | 0 => raise ZeroDivisionError
          | S _ =>
              match FileNames E !! (NextURLNo s mod length (FileNames E)) with
              | None => raise IndexError
              | Some t =>
                  print_started (NextURLNo s + 1) (length (cmds s)) t ;;
                  (* NextURLNo += 1 *)
                  s ← get;
                  step (set_NextURLNo (NextURLNo s + 1)) ;;
                  (* Processes.append(proc) *)
                  s ← get;
                  step (set_Processes (Processes s ++ [proc]))
              end
          end
      end
  end.

(** *** [CheckRunning], lines 64-75 *)

(** Body of the [for] loop, lines 70-71. *)
Definition reap_body (E : Env) (p : Z) : M unit :=
  s ← get;
  match Py.index (Processes s) p with
  | None => raise IndexError
  | Some h =>
      r ← poll E h;
      match r with
      | Some _ =>
          s ← get;
          match Py.del (Processes s) p with
          | None => raise IndexError
          | Some l => step (set_Processes l)
          end
      | None => ret tt
      end
  end.

(** [for p in range(-len(Processes), 0): ...]; the range is computed once,
    when the loop starts. *)
Definition reap (E : Env) : M unit :=
  s ← get;
  for_each (Py.range (- Z.of_nat (length (Processes s))) 0) (reap_body E).

(** [while len(Processes) < ParalleledNum and NextURLNo < len(cmds):
      time.sleep(1); StartNew()] *)
Fixpoint refill (E : Env) (fuel : nat) : M unit :=
  s ← get;
  if (length (Processes s) <? ParalleledNum E)
     && (NextURLNo s <? length (cmds s))
  then
    match fuel with
    | 0 => out_of_fuel
    | S fuel' => sleep 1 ;; StartNew E ;; refill E fuel'
    end
  else ret tt.

(** The [while] loop runs at most once per Job not yet dispatched, which
    is the fuel it is given. *)
Definition CheckRunning (E : Env) : M unit :=
  reap E ;;
  s ← get;
  refill E (length (cmds s) - NextURLNo s).

(** *** The driving loop, lines 77-81 *)

(** [while len(Processes) > 0: time.sleep(60); CheckRunning()] *)
Fixpoint main_loop (E : Env) (fuel : nat) : M unit :=
  s ← get;
  if 0 <? length (Processes s) then
    match fuel with
    | 0 => out_of_fuel
    | S fuel' => sleep 60 ;; CheckRunning E ;; main_loop E fuel'
    end
  else ret tt.

(** The [__main__] block up to the end of the loop (the beeps that
    follow touch none of the globals). *)
Definition main (E : Env) (fuel : nat) : M unit :=
  CheckRunning E ;; main_loop E fuel.

(** A run of the script on a queue: the states passed through, the first
    being the initial one, and the outcome. *)
Definition run (E : Env) (queue : list Job) (fuel : nat)
    : list State * outcome unit :=
  let '(t, o) := main E fuel (init queue) in (init queue :: t, o).

(** *** The effect of each routine, as a function on states *)

(** Whether a child still runs at time [now]: [p.poll() is None]. *)
Definition running (E : Env) (now : nat) (p : Proc) : bool :=
  match exit_status E p now with None => true | Some _ => false end.

Definition polled (E : Env) (now : nat) (p : Proc) : Event :=
  Polled p (exit_status E p now).

(** After [time.sleep(secs)]. *)
Definition slept (secs : nat) (s : State) : State :=
  emit (Slept secs) (advance secs s).

(** The loop of [CheckRunning], lines 69-71, stopped with [rest] still to
    visit and [kept] already visited and kept. *)
Definition reap_from (E : Env) (kept rest : list Proc) (s : State) : State :=
  {| NextURLNo := NextURLNo s;
     Processes := kept ++ List.filter (running E (clock s)) rest;
     cmds := cmds s; clock := clock s; nchildren := nchildren s;
     log := log s ++ map (polled E (clock s)) rest |}.

(** After the whole loop. *)
Definition reaped (E : Env) (s : State) : State :=
  reap_from E [] (Processes s) s.

Definition seed_of (E : Env) (s : State) : string :=
  seed_at (host_utcoffset E) (boot_time E + Z.of_nat (clock s)).

(** The child that [StartNew] creates for the queue entry [c]. *)
Definition child (E : Env) (s : State) (c : Job) : Proc :=
  {| pid := nchildren s; argv := c ++ [seed_of E s]; cwd := cwd_of E;
     started := clock s |}.

(** After a [StartNew] that dispatched the queue entry [c] and printed
    the triple [t]. *)
Definition dispatched (E : Env) (s : State) (c : Job) (t : Triple) : State :=
  {| NextURLNo := NextURLNo s + 1;
     Processes := Processes s ++ [child E s c];
     cmds := <[NextURLNo s := c ++ [seed_of E s]]> (cmds s);
     clock := clock s; nchildren := S (nchildren s);
     log := log s ++ [Spawned (child E s c);
                      Started (NextURLNo s + 1) (length (cmds s)) t] |}.

(** Where [StartNew] stops when [FileNames] is empty: the child exists,
    the message, the cursor and [Processes] are not yet touched. *)
Definition half_dispatched (E : Env) (s : State) (c : Job) : State :=
  {| NextURLNo := NextURLNo s;
     Processes := Processes s;
     cmds := <[NextURLNo s := c ++ [seed_of E s]]> (cmds s);
     clock := clock s; nchildren := S (nchildren s);
     log := log s ++ [Spawned (child E s c)] |}.

(** The condition of the [while] loop of [CheckRunning], line 73. *)
Definition has_slot (E : Env) (s : State) : bool :=
  (length (Processes s) <? ParalleledNum E)
  && (NextURLNo s <? length (cmds s)).

(** The states of a run between two routines: the script sleeps, reaps,
    or dispatches the next Job when a slot is free. *)
Inductive reachable (E : Env) (queue : list Job) : State -> Prop :=
| reach_init : reachable E queue (init queue)
| reach_sleep secs s :
    reachable E queue s -> reachable E queue (slept secs s)
| reach_reap s :
    reachable E queue s -> reachable E queue (reaped E s)
| reach_dispatch s c t :
    reachable E queue s ->
    has_slot E s = true ->
    cmds s !! NextURLNo s = Some c ->
    FileNames E !! (NextURLNo s mod length (FileNames E)) = Some t ->
    reachable E queue (dispatched E s c t).

(** *** Reading the log *)

Definition spawned (l : list Event) : list Proc :=
  omap (fun e => match e with Spawned p => Some p | _ => None end) l.

Definition messages (l : list Event) : list (nat * nat * Triple) :=
  omap (fun e => match e with
                 | Started pos total t => Some (pos, total, t)
                 | _ => None
                 end) l.

Definition polls (l : list Event) : list (Proc * option Z) :=
  omap (fun e => match e with Polled p r => Some (p, r) | _ => None end) l.

(** ** Vocabulary of the properties *)

(** Where the nested loops put the Job of iteration [i] and triple
    number [t]: at index [i * T + t]. *)
Definition queue_layout (job : Triple -> Job) (Iteration : Z)
    (FileNames : list Triple) (queue : list Job) : Prop :=
  let T := length FileNames in
  Z.of_nat (length queue) = (Iteration * Z.of_nat T)%Z
  /\ (forall i t, (Z.of_nat i < Iteration)%Z -> t < T ->
        queue !! (i * T + t) = job <$> FileNames !! t)
  /\ (forall i t i' t', t < T -> t' < T ->
        (i * T + t < i' * T + t' <-> i < i' \/ (i = i' /\ t < t'))).

(** The seconds field of a ten-character seed. *)
Definition seconds_field (seed : string) : string := substring 8 2 seed.

(** *** Runs and what holds along them *)

(** The outcome of a run is a reachable state; the only exception a run
    can raise is the [ZeroDivisionError] of the progress message, and
    only when [FileNames] is empty although the queue is not. *)
Definition outcome_reachable (E : Env) (queue : list Job)
    (o : outcome unit) : Prop :=
  match o with
  | Ok _ s | OutOfFuel s => reachable E queue s
  | Raise e s =>
      e = ZeroDivisionError /\ FileNames E = []
      /\ exists s0 c, reachable E queue s0 /\ has_slot E s0 = true
           /\ cmds s0 !! NextURLNo s0 = Some c
           /\ s = half_dispatched E s0 c
  end.

(** The cursor counts the children, never passes the end of the queue,
    and the entries at and after it are still as the queue was built. *)
Definition cursor_inv (queue : list Job) (s : State) : Prop :=
  NextURLNo s <= length queue
  /\ nchildren s = NextURLNo s
  /\ length (cmds s) = length queue
  /\ forall i, NextURLNo s <= i -> cmds s !! i = queue !! i.

(** The [k]-th child created is child number [k] and runs the [k]-th
    entry of the queue, followed by a seed. *)
Definition in_queue_order (queue : list Job) (l : list Proc) : Prop :=
  forall k p, l !! k = Some p ->
    pid p = k /\ exists c seed, queue !! k = Some c /\ argv p = c ++ [seed].

(** The [k]-th progress message shows position [k + 1], the length of
    the queue, and the triple at [k mod len(FileNames)]. *)
Definition messages_in_order (E : Env) (queue : list Job)
    (l : list (nat * nat * Triple)) : Prop :=
  forall k pos total t, l !! k = Some (pos, total, t) ->
    pos = k + 1 /\ total = length queue
    /\ FileNames E !! (k mod length (FileNames E)) = Some t.

(** The active children are distinct and were all created by the
    script. *)
Definition procs_inv (s : State) : Prop :=
  Forall (fun p => pid p < NextURLNo s) (Processes s)
  /\ NoDup (pid <$> Processes s).

(** A handle that was seen with an exit code is not polled afterwards. *)
Definition reaped_for_good (l : list (Proc * option Z)) : Prop :=
  forall i j p code q r,
    l !! i = Some (p, Some code) -> l !! j = Some (q, r) -> i < j ->
    pid q <> pid p.

Definition polls_inv (s : State) : Prop :=
  (forall p r, (p, r) ∈ polls (log s) -> pid p < NextURLNo s)
  /\ (forall p code, (p, Some code) ∈ polls (log s) ->
        pid p ∉ pid <$> Processes s)
  /\ reaped_for_good (polls (log s)).

(** Every child created so far is still active or was seen to exit. *)
Definition accounted (s : State) : Prop :=
  forall k, k < NextURLNo s ->
    k ∈ pid <$> Processes s
    \/ exists p code, pid p = k /\ (p, Some code) ∈ polls (log s).

(** *** The states passed through *)

(** [I] is to hold of every state passed through: from a state with [P],
    every state that [m] passes through and the one it stops in satisfy
    [I], and [Q] holds when [m] returns. *)
Definition triple {A} (I P : State -> Prop) (m : M A)
    (Q : A -> State -> Prop) : Prop :=
  forall s, P s ->
    Forall I (m s).1 /\ I (final (m s).2)
    /\ forall a s', (m s).2 = Ok a s' -> Q a s'.

(** The Active Process Set holds at most [ParalleledNum] handles. *)
Definition bounded (E : Env) (s : State) : Prop :=
  length (Processes s) <= ParalleledNum E.

(** *** The work left to a run *)

(** How long child [k] runs; 0 stands in for a child that never exits,
    which the lemmas below exclude. *)
Definition dur (E : Env) (k : nat) : nat := default 0 (runtime E k).

(** One more than the seconds the active children still have to run. *)
Fixpoint active_cost (E : Env) (now : nat) (l : list Proc) : nat :=
  match l with
  | [] => 0
  | p :: l' => S (started p + dur E (pid p) - now) + active_cost E now l'
  end.

(** The same for the [n] Jobs not yet dispatched, [from] being the first. *)
Fixpoint pending_cost (E : Env) (from n : nat) : nat :=
  match n with
  | 0 => 0
  | S n' => S (dur E from) + pending_cost E (S from) n'
  end.

(** What is left to do: it shrinks with every round of the driving loop. *)
Definition work_left (E : Env) (s : State) : nat :=
  active_cost E (clock s) (Processes s)
  + pending_cost E (NextURLNo s) (length (cmds s) - NextURLNo s).

(** *** Sample configurations *)

(** Two Jobs and two slots; [stateAB] has two running children, [A] the
    older and [B] the newer, as the first [CheckRunning] leaves them. *)
Definition envAB : Env :=
  {| ParalleledNum := 2;
     FileNames := [("A", "s", "c"); ("B", "s", "c")];
     cwd_of := "wd"; boot_time := 1720038615; host_utcoffset := 0;
     runtime := fun _ => Some 100; exitcode := fun _ => 0%Z |}.

Definition stateAB : State :=
  final (CheckRunning envAB (init [["A"]; ["B"]])).2.

(** The four-Job scenario: [A] exits after 30 seconds, the others after
    100. *)
Definition envABCD : Env :=
  {| ParalleledNum := 2;
     FileNames := [("A", "s", "c"); ("B", "s", "c"); ("C", "s", "c");
                   ("D", "s", "c")];
     cwd_of := "wd"; boot_time := 1720038615; host_utcoffset := 0;
     runtime := fun k => match k with 0 => Some 30 | _ => Some 100 end;
     exitcode := fun _ => 0%Z |}.

(** A launcher with parallelism limit 0 and one Job in its queue. *)
Definition env_limit0 : Env :=
  {| ParalleledNum := 0;
     FileNames := [("Sv5r10", "JOSi1000o500", "HADODn")];
     cwd_of := working_directory paralled_folders;
     boot_time := 1720038615; host_utcoffset := 8 * 3600;
     runtime := fun _ => Some 100; exitcode := fun _ => 0%Z |}.

(** The constants of [paralledExperiments.py] with two of its triples. *)
Definition env_paralled : Env :=
  {| ParalleledNum := 8;
     FileNames := [("Sv5r10", "JOSi1000o500", "HADODn");
                   ("Sv5r10", "JOSi1000o500", "SEQUn")];
     cwd_of := working_directory paralled_folders;
     boot_time := 1720038615; host_utcoffset := 8 * 3600;
     runtime := fun k => Some (100 + 50 * k); exitcode := fun k => Z.of_nat k |}.

(** ** The CSV fix-up: [fixFootprints.py] *)

Module Footprints.

(** What the script uses of pandas.  A cell is a value as the row handed
    to the lambda of [df.apply(..., axis=1)] holds it; [fmt] is how an
    f-string shows it; [obj] is a [str] stored in a column; [read_csv] and
    [to_csv] stand for [pd.read_csv(file, sep=';')] and
    [df.to_csv(file, index=False, sep=';')] on the text of a file. *)
Record DataFrame (Cell : Type) : Type := {
  columns : list string;
  rows : list (list Cell)
}.
Arguments columns {Cell} _.
Arguments rows {Cell} _.

Record Pandas : Type := {
  Cell : Type;
  fmt : Cell -> string;
  obj : string -> Cell;
  read_csv : string -> DataFrame Cell;
  to_csv : DataFrame Cell -> string
}.

(** The files on disk and what was printed. *)
Record World : Type := {
  files : gmap string string;
  console : list string
}.

Inductive result : Type :=
| Done (w : World)
| Failed (w : World).     (* an exception ended the script *)

Definition print (line : string) (w : World) : World :=
  {| files := files w; console := console w ++ [line] |}.

Definition write (file text : string) (w : World) : World :=
  {| files := <[file := text]> (files w); console := console w |}.

(** Position of a column label. *)
Fixpoint index_of (name : string) (cols : list string) : option nat :=
  match cols with
  | [] => None
  | c :: cols' =>
      if String.eqb c name then Some 0 else S <$> index_of name cols'
  end.

(** [row[name]] *)
Definition cell {C} (cols : list string) (row : list C) (name : string)
    : option C :=
  i ← index_of name cols; row !! i.

(** [name in df.columns] *)
Definition has_column (name : string) (cols : list string) : bool :=
  bool_decide (name ∈ cols).

(** The lambda of line 13 and the assignment of its result to the
    column: [f"{row['Instance']}r{row['NBots']}"]. *)
Definition fix_row (P : Pandas) (cols : list string) (row : list (Cell P))
    : option (list (Cell P)) :=
  a ← cell cols row "Instance";
  b ← cell cols row "NBots";
  i ← index_of "Instance" cols;
  Some (<[i := obj P (fmt P a +:+ "r" +:+ fmt P b)]> row).

Definition warning : string :=
  "Columns 'NBots' and/or 'Instance' not found in the CSV file.".

(** Body of the loop, lines 7-18. *)
Definition fix_file (P : Pandas) (file : string) (w : World) : result :=
  let w := print ("fixing: " +:+ file) w in
  match files w !! file with
  | None => Failed w
  | Some text =>
      let df := read_csv P text in
      if has_column "NBots" (columns df) && has_column "Instance" (columns df)
      then
        match mapM (fix_row P (columns df)) (rows df) with
        | Some rows' =>
            Done (write file
                    (to_csv P {| columns := columns df; rows := rows' |}) w)
        | None => Failed w
        end
      else Done (print warning w)
  end.

(** [for file in files: ...] *)
Fixpoint fix_all (P : Pandas) (names : list string) (w : World) : result :=
  match names with
  | [] => Done w
  | file :: names' =>
      match fix_file P file w with
      | Done w' => fix_all P names' w'
      | Failed w' => Failed w'
      end
  end.

(** A frame as [read_csv] returns it: every row has one cell per
    column. *)
Definition rectangular {C} (df : DataFrame C) : Prop :=
  Forall (fun row => length row = length (columns df)) (rows df).

(** The [Instance] cell of [row'] is the old one, the letter r and the
    [NBots] cell; the other cells are those of [row]. *)
Definition row_fixed (P : Pandas) (cols : list string)
    (row row' : list (Cell P)) : Prop :=
  exists a b,
    cell cols row "Instance" = Some a
    /\ cell cols row "NBots" = Some b
    /\ cell cols row' "Instance" = Some (obj P (fmt P a +:+ "r" +:+ fmt P b))
    /\ forall name, name <> "Instance" ->
         cell cols row' name = cell cols row name.




End Footprints.

(** ** Further vocabulary *)

(** [Inv] holds of the state in which a computation returned or ran out
    of fuel. *)
Definition holds_unless_raised {A} (Inv : State -> Prop) (o : outcome A)
    : Prop :=
  match o with
  | Ok _ s | OutOfFuel s => Inv s
  | Raise _ _ => True
  end.
(** The process of [p] has exited by the time [now]. *)
Definition exited_by (E : Env) (now : nat) (p : Proc) : Prop :=
  exists d, runtime E (pid p) = Some d /\ started p + d <= now.

(** A child that is no longer in [Processes] has exited. *)
Definition gone_exited (E : Env) (s : State) : Prop :=
  forall p, p ∈ spawned (log s) -> p ∈ Processes s \/ exited_by E (clock s) p.

(** Every child was created after all the earlier ones had exited. *)
Definition one_at_a_time (E : Env) (s : State) : Prop :=
  forall i j p q, i < j ->
    spawned (log s) !! i = Some p -> spawned (log s) !! j = Some q ->
    exited_by E (started q) p.

(** A second at least lies between two dispatches, and after the start
    of the script before the first. *)
Definition paced (s : State) : Prop :=
  (forall i p, spawned (log s) !! i = Some p ->
     1 <= started p /\ started p + (length (spawned (log s)) - 1 - i) <= clock s)
  /\ forall i j p q, i < j ->
       spawned (log s) !! i = Some p -> spawned (log s) !! j = Some q ->
       started p + (j - i) <= started q.

(** The entries of [cmds] before the cursor carry exactly one seed each,
    the others are as the queue was built. *)
Definition seeded_once (queue : list Job) (s : State) : Prop :=
  length (cmds s) = length queue
  /\ forall k c, queue !! k = Some c ->
       (k < NextURLNo s -> exists seed, cmds s !! k = Some (c ++ [seed]))
       /\ (NextURLNo s <= k -> cmds s !! k = Some c).

(** A launcher whose [FileNames] was emptied after the queue was built. *)
Definition env_no_triples : Env :=
  {| ParalleledNum := 2; FileNames := [];
     cwd_of := working_directory paralled_folders;
     boot_time := 1720038615; host_utcoffset := 8 * 3600;
     runtime := fun _ => Some 100; exitcode := fun _ => 0%Z |}.

(** The launcher of [oneExperiment.py]'s kind: one slot. *)
Definition env_one_slot : Env :=
  {| ParalleledNum := 1;
     FileNames := [("Sv1r60", "JOSi100o500q", "SAIn")];
     cwd_of := working_directory paralled_folders;
     boot_time := 1720038615; host_utcoffset := 8 * 3600;
     runtime := fun k => Some (40 + 100 * k); exitcode := fun _ => 0%Z |}.
(** ** More of Python: [str] of an [int], [range] with a step *)

Module PyInt.

(** [str(z)]: the decimal digits, after a minus sign when negative. *)
Definition str (z : Z) : string := NilZero.string_of_int (Z.to_int z).

(** [range(lo, hi, step)] for a positive step. *)
Definition range3 (lo hi step : Z) : list Z :=
  map (fun i : nat => (lo + Z.of_nat i * step)%Z)
    (seq 0 (Z.to_nat ((hi - lo + step - 1) / step))).

End PyInt.

(** ** The list of triples: [paralledExperiments.py], lines 18-25 *)




(** ** The layout variants: [layoutVariant.py] *)

Module Layout.

(** An [xml.etree.ElementTree.Element]. *)
Inductive Element : Type :=
| Elem (tag : string) (attrib : list (string * string))
       (text tail : option string) (children : list Element).

Definition tag (e : Element) : string :=
  match e with Elem t _ _ _ _ => t end.
Definition text (e : Element) : option string :=
  match e with Elem _ _ x _ _ => x end.
Definition children (e : Element) : list Element :=
  match e with Elem _ _ _ _ c => c end.

(** [e.text = txt] *)
Definition with_text (txt : string) (e : Element) : Element :=
  match e with Elem t a _ tl c => Elem t a (Some txt) tl c end.

(** [for e in root.findall(name): e.text = txt]: [findall] with a bare
    tag name gives the direct children of [root] that carry this tag. *)
Definition set_texts (name txt : string) (root : Element) : Element :=
  match root with
  | Elem t a x tl c =>
      Elem t a x tl
        (map (fun e => if String.eqb (tag e) name then with_text txt e else e)
           c)
  end.

(** What the script uses of the libraries: [ET.parse] on the text of a
    file ([None] for a text that is no XML), [tree.write(path,
    encoding='utf-8', xml_declaration=True)] as the text written, and
    [os.path.split], [os.path.splitext], [os.path.join]. *)
Record Lib : Type := {
  parse : string -> option Element;
  serialize : Element -> string;
  split : string -> string * string;
  splitext : string -> string * string;
  join : string -> string -> string
}.

(** [f"{name}r{bot_count}{extension}"] *)
Definition variant_name (name extension : string) (bot_count : Z) : string :=
  name +:+ "r" +:+ PyInt.str bot_count +:+ extension.

(** Body of the loop over [bot_count], lines 19-31; the tree is the one
    object parsed before the loop, changed in place by every round. *)
Definition variant_step (L : Lib) (directory name extension : string)
    (st : Element * Footprints.World) (bot_count : Z)
    : Element * Footprints.World :=
  let '(root, w) := st in
  let root := set_texts "BotCount" (PyInt.str bot_count) root in
  let root :=
    set_texts "NameLayout" (name +:+ "r" +:+ PyInt.str bot_count) root in
  let new_file_name := variant_name name extension bot_count in
  let new_file_path := join L directory new_file_name in
  (root, Footprints.write new_file_path (serialize L root) w).

(** Body of the loop over the files, lines 10-31. *)
Definition variants_of_file (L : Lib) (filePath : string)
    (w : Footprints.World) : Footprints.result :=
  let w := Footprints.print ("Generating variant of: " +:+ filePath) w in
  let '(directory, filename) := split L filePath in
  let '(name, extension) := splitext L filename in
  match Footprints.files w !! filePath with
  | None => Footprints.Failed w
  | Some content =>
      match parse L content with
      | None => Footprints.Failed w
      | Some root =>
          Footprints.Done
            (fold_left (variant_step L directory name extension)
               (PyInt.range3 10 110 10) (root, w)).2
      end
  end.

(** [create_variant_files], over the files that [utils.askFiles] gave. *)
Fixpoint create_variant_files (L : Lib) (paths : list string)
    (w : Footprints.World) : Footprints.result :=
  match paths with
  | [] => Footprints.Done w
  | filePath :: paths' =>
      match variants_of_file L filePath w with
      | Footprints.Done w' => create_variant_files L paths' w'
      | Footprints.Failed w' => Footprints.Failed w'
      end
  end.

(** A layout with its [BotCount] set to [bot_count] and its [NameLayout]
    to the variant's name, all else as in [root]. *)
Definition variant (name : string) (bot_count : Z) (root : Element)
    : Element :=
  set_texts "NameLayout" (name +:+ "r" +:+ PyInt.str bot_count)
    (set_texts "BotCount" (PyInt.str bot_count) root).

End Layout.
(** A small world to run [layoutVariant.py] in: backslash paths, one
    layout file, and a printer that lists the children of the root. *)
Definition layout_toy_tree : Layout.Element :=
  Layout.Elem "Layout" [] None None
    [Layout.Elem "NameLayout" [] (Some "Sv5") None [];
     Layout.Elem "BotCount" [] (Some "32") None [];
     Layout.Elem "Tiers" [] None None
       [Layout.Elem "BotCount" [] (Some "7") None []]].

Definition layout_toy_lib : Layout.Lib :=
  {| Layout.parse := fun content =>
       if String.eqb content "<Layout/>" then Some layout_toy_tree else None;
     Layout.serialize := fun root =>
       String.concat ";"
         (map (fun e => Layout.tag e +:+ "=" +:+ default "" (Layout.text e))
            (Layout.children root));
     Layout.split := fun _ => ("D:\layouts", "Sv5.xlayo");
     Layout.splitext := fun _ => ("Sv5", ".xlayo");
     Layout.join := fun d f => d +:+ "\" +:+ f |}.

Definition layout_toy_world : Footprints.World :=
  {| Footprints.files := {[ "D:\layouts\Sv5.xlayo" := "<Layout/>" ]};
     Footprints.console := [] |}.
(** ** More of [fixFootprints.py] *)

(** The world a run of the script leaves, however it ends. *)
Definition final_world (r : Footprints.result) : Footprints.World :=
  match r with
  | Footprints.Done w => w
  | Footprints.Failed w => w
  end.

(** What two runs of the script make of a row: the [NBots] value is
    appended twice. *)
Definition row_fixed_twice (P : Footprints.Pandas) (cols : list string)
    (row row' : list (Footprints.Cell P)) : Prop :=
  exists a b,
    Footprints.cell cols row "Instance" = Some a
    /\ Footprints.cell cols row "NBots" = Some b
    /\ Footprints.cell cols row' "Instance"
       = Some (Footprints.obj P
                 (Footprints.fmt P a +:+ "r" +:+ Footprints.fmt P b
                    +:+ "r" +:+ Footprints.fmt P b))
    /\ forall name, name <> "Instance" ->
         Footprints.cell cols row' name = Footprints.cell cols row name.

(** A pandas of string cells over real text: one row per line, one cell
    per semicolon, the first line holding the column labels. *)
Fixpoint split_on (c : ascii) (s : string) : list string :=
  match s with
  | EmptyString => [EmptyString]
  | String d s' =>
      if Ascii.eqb d c then EmptyString :: split_on c s'
      else match split_on c s' with
           | x :: xs => String d x :: xs
           | [] => [String d EmptyString]
           end
  end.

Definition csv_pandas : Footprints.Pandas :=
  {| Footprints.Cell := string;
     Footprints.fmt := fun s => s;
     Footprints.obj := fun s => s;
     Footprints.read_csv := fun text =>
       match map (split_on ";") (split_on "010" text) with
       | cols :: rows =>
           {| Footprints.columns := cols; Footprints.rows := rows |}
       | [] => {| Footprints.columns := []; Footprints.rows := [] |}
       end;
     Footprints.to_csv := fun df =>
       String.concat (String "010" EmptyString)
         (map (String.concat ";")
            (Footprints.columns df :: Footprints.rows df)) |}.

Definition csv_world : Footprints.World :=
  {| Footprints.files :=
       {[ "a/footprints.csv" :=
            String.concat (String "010" EmptyString)
              ["Instance;NBots;Time"; "Sv5;60;3.5"; "Sv5;70;4.1"] ]};
     Footprints.console := [] |}.

(** ** The instance name in the summary: [csvToExcel.py], line 44 *)

(** [re.search] with the pattern [(.+?)r\d+$], as [Series.str.extract]
    applies it to a name: the text of the group, or [None] where pandas
    stores NaN.  A dot is any character but a newline; [$] is the end of
    the string or the place before a newline that ends it. *)
Module Re.

Definition dot (c : ascii) : bool := negb (Ascii.eqb c "010").

(** [\d*$] at the head of [s]. *)
Fixpoint digits_end (s : string) : bool :=
  match s with
  | EmptyString => true
  | String c s' =>
      if is_digit c then digits_end s'
      else Ascii.eqb c "010" && String.eqb s' EmptyString
  end.

(** [r\d+$] at the head of [s]. *)
Definition suffix_matches (s : string) : bool :=
  match s with
  | String "r" (String c s') => is_digit c && digits_end s'
  | _ => false
  end.

(** The lazy group once it holds a character: stop at the first place
    where the rest of the pattern matches, else take one more. *)
Fixpoint lazy_more (s : string) : option string :=
  if suffix_matches s then Some EmptyString
  else match s with
       | EmptyString => None
       | String c s' => if dot c then String c <$> lazy_more s' else None
       end.

(** The whole pattern at the head of [s]. *)
Definition match_here (s : string) : option string :=
  match s with
  | EmptyString => None
  | String c s' => if dot c then String c <$> lazy_more s' else None
  end.

(** The leftmost match. *)
Fixpoint search (s : string) : option string :=
  match match_here s with
  | Some g => Some g
  | None => match s with
            | EmptyString => None
            | String _ s' => search s'
            end
  end.

End Re.

Definition summary_instance (name : string) : option string := Re.search name.

(** * Properties *)

(** ** Output directory *)

Section OutputDir.

Lemma rsplit_last_absent sep s :
  occurs sep s = false -> Py.rsplit_last sep s = None.
Proof.
  induction s as [|c s IH]; simpl; [reflexivity|].
  intros H. apply orb_false_iff in H as [Hc Hs].
  rewrite (IH Hs), Hc. reflexivity.
Qed.

Lemma rsplit_last_app sep a b :
  occurs sep b = false ->
  Py.rsplit_last sep (a +:+ String sep b) = Some (a, b).
Proof.
  intros Hb. induction a as [|c a IH]; simpl.
  - rewrite (rsplit_last_absent _ _ Hb), Ascii.eqb_refl. reflexivity.
  - rewrite IH. reflexivity.
Qed.

Lemma digit_not_r c : is_digit c = true -> Ascii.eqb c "r" = false.
Proof.
  intros H. destruct (Ascii.eqb_spec c "r") as [->|]; [|reflexivity].
  vm_compute in H. discriminate.
Qed.

Lemma digits_no_r s : all_digits s = true -> occurs "r" s = false.
Proof.
  induction s as [|c s IH]; simpl; [reflexivity|].
  intros H. apply andb_true_iff in H as [Hc Hs].
  rewrite (digit_not_r _ Hc), (IH Hs). reflexivity.
Qed.

Lemma base_instance_cut a b :
  occurs "r" b = false -> base_instance (a +:+ String "r" b) = a.
Proof.
  intros Hb. unfold base_instance, Py.rsplit1.
  rewrite (rsplit_last_app _ _ _ Hb). reflexivity.
Qed.

Lemma base_instance_whole s :
  occurs "r" s = false -> base_instance s = s.
Proof.
  intros Hs. unfold base_instance, Py.rsplit1.
  rewrite (rsplit_last_absent _ _ Hs). reflexivity.
Qed.

End OutputDir.

(** C8, as the claim states it, fails: the name "Warehouse1" has no
    trailing "r<number>", so stripping that suffix keeps the whole name,
    while the script cuts the name at its last letter r. *)
Lemma C8_counterexample :
  outputDir paralled_folders "Warehouse1"
    = experimentFolder paralled_folders +:+ "\" +:+ "Wa"
  /\ outputDir paralled_folders "Warehouse1"
    <> experimentFolder paralled_folders +:+ "\"
         +:+ strip_r_number "Warehouse1".
Proof. split; [reflexivity | discriminate]. Qed.

(** C8, amended: the output directory is the experiment root, a
    backslash, and the part of the instance name before its LAST letter r
    (the whole name when it has no r), whatever follows that r.  For a
    name [base ++ "r" ++ digits] this is [base]; "Sv5r60" gives "Sv5", and
    two bot-count variants of one base share their output directory. *)
Theorem C8_outputDir_cuts_at_last_r (F : Folders) :
  (forall a b, occurs "r" b = false ->
     outputDir F (a +:+ String "r" b) = experimentFolder F +:+ "\" +:+ a)
  /\ (forall name, occurs "r" name = false ->
     outputDir F name = experimentFolder F +:+ "\" +:+ name)
  /\ (forall base n, all_digits n = true ->
     outputDir F (base +:+ String "r" n) = experimentFolder F +:+ "\" +:+ base)
  /\ (forall base n m, all_digits n = true -> all_digits m = true ->
     outputDir F (base +:+ String "r" n) = outputDir F (base +:+ String "r" m))
  /\ outputDir F "Sv5r60" = experimentFolder F +:+ "\" +:+ "Sv5".
Proof.
  assert (Hd : forall base n, all_digits n = true ->
     outputDir F (base +:+ String "r" n) = experimentFolder F +:+ "\" +:+ base).
  { intros base n Hn. unfold outputDir.
    rewrite base_instance_cut; [reflexivity | by apply digits_no_r]. }
  split; [|split; [|split; [|split]]].
  - intros a b Hb. unfold outputDir. by rewrite base_instance_cut.
  - intros name Hn. unfold outputDir. by rewrite base_instance_whole.
  - exact Hd.
  - intros base n m Hn Hm. by rewrite !Hd.
  - reflexivity.
Qed.

Lemma C8_outputDir_witness :
  outputDir paralled_folders "Sv5r100" = outputDir paralled_folders "Sv5r60".
Proof.
  destruct (C8_outputDir_cuts_at_last_r paralled_folders)
    as (_ & _ & _ & H & _).
  apply (H "Sv5" "100" "60"); reflexivity.
Defined.

(** ** The job queue *)

Section QueueFacts.

Context (job : Triple -> Job) (FileNames : list Triple).

Lemma inner_loop_appends (l : list Triple) (acc : list Job) :
  fold_left (fun cmds t => cmds ++ [job t]) l acc = acc ++ map job l.
Proof.
  revert acc. induction l as [|t l IH]; intros acc; simpl.
  - by rewrite app_nil_r.
  - rewrite IH, <- app_assoc. reflexivity.
Qed.

Lemma outer_loop_appends (idxs : list Z) (acc : list Job) :
  fold_left
    (fun cmds (_ : Z) =>
       fold_left (fun cmds t => cmds ++ [job t]) FileNames cmds) idxs acc
  = acc ++ concat (replicate (length idxs) (map job FileNames)).
Proof.
  revert acc. induction idxs as [|i idxs IH]; intros acc; simpl.
  - by rewrite app_nil_r.
  - rewrite IH, inner_loop_appends, <- app_assoc. reflexivity.
Qed.

Lemma range_length lo hi : length (Py.range lo hi) = Z.to_nat (hi - lo).
Proof. unfold Py.range. by rewrite length_map, length_seq. Qed.

Lemma build_cmds_concat (Iteration : Z) :
  build_cmds job Iteration FileNames
  = concat (replicate (Z.to_nat Iteration) (map job FileNames)).
Proof.
  unfold build_cmds. rewrite outer_loop_appends, range_length. simpl.
  by rewrite Z.sub_0_r.
Qed.

Lemma concat_replicate_length {A} n (l : list A) :
  length (concat (replicate n l)) = n * length l.
Proof.
  induction n as [|n IH]; simpl; [reflexivity|].
  rewrite length_app, IH. reflexivity.
Qed.

Lemma concat_replicate_lookup {A} n (l : list A) i t :
  i < n -> t < length l ->
  concat (replicate n l) !! (i * length l + t) = l !! t.
Proof.
  revert i. induction n as [|n IH]; intros i Hi Ht; [lia|].
  simpl. destruct i as [|i]; simpl.
  - by apply lookup_app_l.
  - rewrite lookup_app_r by lia.
    replace (length l + i * length l + t - length l)
      with (i * length l + t) by lia.
    apply IH; lia.
Qed.

Lemma build_cmds_layout (Iteration : Z) :
  (0 <= Iteration)%Z ->
  queue_layout job Iteration FileNames
    (build_cmds job Iteration FileNames).
Proof.
  intros HI. rewrite build_cmds_concat. split; [|split].
  - rewrite concat_replicate_length, length_map. lia.
  - intros i t Hi Ht.
    pose proof (concat_replicate_lookup (Z.to_nat Iteration)
                  (map job FileNames) i t) as H.
    rewrite length_map in H. rewrite H by lia.
    apply list_lookup_fmap.
  - intros i t i' t' Ht Ht'. nia.
Qed.

(** The entry at index [k] comes from the triple at [k mod T]. *)
Lemma build_cmds_lookup_mod (Iteration : Z) k :
  k < length (build_cmds job Iteration FileNames) ->
  exists tr, FileNames !! (k mod length FileNames) = Some tr
    /\ build_cmds job Iteration FileNames !! k = Some (job tr).
Proof.
  rewrite build_cmds_concat, concat_replicate_length, length_map.
  intros Hk.
  assert (HT : 0 < length FileNames) by nia.
  assert (Hm : k mod length FileNames < length FileNames)
    by (apply Nat.mod_upper_bound; lia).
  destruct (lookup_lt_is_Some_2 FileNames _ Hm) as [tr Htr].
  exists tr. split; [exact Htr|].
  pose proof (Nat.div_mod_eq k (length FileNames)) as Hdm.
  pose proof (concat_replicate_lookup (Z.to_nat Iteration)
                (map job FileNames) (k / length FileNames)
                (k mod length FileNames)) as H.
  rewrite length_map in H.
  replace (k / length FileNames * length FileNames
           + k mod length FileNames) with k in H by lia.
  rewrite H.
  - by rewrite list_lookup_fmap, Htr.
  - apply Nat.Div0.div_lt_upper_bound. lia.
  - exact Hm.
Qed.

End QueueFacts.

(** C2: for an iteration count [I >= 0] and a triples list of length
    [T], the queue of either launcher has [I * T] entries; the entry of
    iteration [i] and triple number [t] sits at index [i * T + t] (the
    iteration is the outer key, the position in the list the inner one)
    and is the Job built from the [t]-th triple. *)
Theorem C2_queue_size_and_order (F : Folders) (Iteration : Z)
    (FileNames : list Triple) :
  (0 <= Iteration)%Z ->
  queue_layout (job_paralled F) Iteration FileNames
    (cmds_paralled F Iteration FileNames)
  /\ queue_layout (job_one F) Iteration FileNames
    (cmds_one F Iteration FileNames).
Proof. intros HI. split; by apply build_cmds_layout. Qed.

Lemma C2_queue_witness :
  queue_layout (job_paralled paralled_folders) 2
    [("Sv5r10", "JOSi1000o500", "HADODn"); ("Sv5r10", "JOSi1000o500", "SEQUn")]
    (cmds_paralled paralled_folders 2
       [("Sv5r10", "JOSi1000o500", "HADODn");
        ("Sv5r10", "JOSi1000o500", "SEQUn")]).
Proof.
  apply (C2_queue_size_and_order paralled_folders 2
           [("Sv5r10", "JOSi1000o500", "HADODn");
            ("Sv5r10", "JOSi1000o500", "SEQUn")]).
  lia.
Defined.

(** ** The seed *)

Section Seed.

(** The attached [tzinfo] plays no part in the digits: the seed is the
    host's own local clock reading. *)
Lemma seed_at_host_fields h u :
  seed_at h u = DateTime.strftime_mdHMS (DateTime.now h u).
Proof. reflexivity. Qed.

Lemma seed_seconds_field h u :
  seconds_field (seed_at h u)
  = DateTime.two_digits (DateTime.second (DateTime.now h u)).
Proof. reflexivity. Qed.

Lemma now_second h u :
  DateTime.second (DateTime.now h u) = ((u + h) mod 60)%Z.
Proof.
  unfold DateTime.now, DateTime.fields_at.
  destruct (DateTime.civil_from_days _) as [[y m] d]. simpl.
  Z.to_euclidean_division_equations. lia.
Qed.

Lemma digit_inj a b :
  (0 <= a < 10)%Z -> (0 <= b < 10)%Z ->
  DateTime.digit a = DateTime.digit b -> a = b.
Proof.
  intros Ha Hb H. unfold DateTime.digit in H.
  apply (f_equal nat_of_ascii) in H.
  rewrite !nat_ascii_embedding in H by lia. lia.
Qed.

Lemma two_digits_inj a b :
  (0 <= a < 100)%Z -> (0 <= b < 100)%Z ->
  DateTime.two_digits a = DateTime.two_digits b -> a = b.
Proof.
  intros Ha Hb H. unfold DateTime.two_digits in H.
  injection H as H1 H0.
  apply digit_inj in H1; [|Z.to_euclidean_division_equations; lia ..].
  apply digit_inj in H0; [|Z.to_euclidean_division_equations; lia ..].
  Z.to_euclidean_division_equations. lia.
Qed.

(** Two clock readings one second apart give seeds that differ, and
    differ in their seconds field. *)
Lemma seed_one_second_apart h u :
  seconds_field (seed_at h u) <> seconds_field (seed_at h (u + 1))
  /\ seed_at h u <> seed_at h (u + 1).
Proof.
  assert (H : seconds_field (seed_at h u)
              <> seconds_field (seed_at h (u + 1))).
  { rewrite !seed_seconds_field, !now_second. intros H.
    apply two_digits_inj in H;
      Z.to_euclidean_division_equations; lia. }
  split; [exact H|]. intros Heq. apply H. by rewrite Heq.
Qed.

End Seed.

(** C7, the code at a host that keeps UTC, on 2024-07-03 at 20:30:15 UTC:
    the script's seed shows the host's local reading, 07-03 20:30:15,
    where a clock at UTC+8 shows 07-04 04:30:15.  On a host that keeps
    UTC+8 the two agree. *)
Theorem C7_seed_shows_host_local_time :
  seed_at 0 1720038615 = "0703203015"
  /\ DateTime.seed_utc8 1720038615 = "0704043015"
  /\ seed_at 0 1720038615 <> DateTime.seed_utc8 1720038615
  /\ seed_at (8 * 3600) 1720038615 = DateTime.seed_utc8 1720038615.
Proof. repeat split. discriminate. Qed.

(** ** The launcher: what each routine does *)

Section Routines.

Context (E : Env).

Lemma bind_get {A} (f : State -> M A) s : (get ≫= f) s = f s s.
Proof.
  unfold mbind, M_bind, bind, get. destruct (f s s) as [t o]. reflexivity.
Qed.

Lemma out_bind {A B} (m : M A) (f : A -> M B) s a s' :
  (m s).2 = Ok a s' -> ((m ≫= f) s).2 = (f a s').2.
Proof.
  unfold mbind, M_bind, bind. destruct (m s) as [t o]; simpl.
  intros ->. by destruct (f a s').
Qed.

Lemma out_bind_step {A} g (f : unit -> M A) s :
  ((step g ≫= f) s).2 = (f tt (g s)).2.
Proof. by apply out_bind. Qed.

Lemma out_bind_Raise {A B} (m : M A) (f : A -> M B) s e s' :
  (m s).2 = Raise e s' -> ((m ≫= f) s).2 = Raise e s'.
Proof.
  unfold mbind, M_bind, bind. destruct (m s) as [t o]; simpl. by intros ->.
Qed.

Lemma out_bind_OutOfFuel {A B} (m : M A) (f : A -> M B) s s' :
  (m s).2 = OutOfFuel s' -> ((m ≫= f) s).2 = OutOfFuel s'.
Proof.
  unfold mbind, M_bind, bind. destruct (m s) as [t o]; simpl. by intros ->.
Qed.

End Routines.

Ltac msimpl :=
  cbn [NextURLNo Processes cmds clock nchildren log
       set_NextURLNo set_Processes set_cmds emit advance new_child].

Ltac mstate :=
  unfold slept, set_NextURLNo, set_Processes, set_cmds, emit, advance,
    new_child;
  cbn [NextURLNo Processes cmds clock nchildren log].

Ltac mstep :=
  first [ rewrite bind_get | rewrite out_bind_step
        | erewrite out_bind by reflexivity ];
  cbv beta zeta; msimpl.

Section RoutineEffects.

Context (E : Env).

Lemma sleep_out secs s : (sleep secs s).2 = Ok tt (slept secs s).
Proof. reflexivity. Qed.

(** [StartNew] on an entry that exists, with a non-empty [FileNames]. *)
Lemma StartNew_out s c t :
  cmds s !! NextURLNo s = Some c ->
  FileNames E !! (NextURLNo s mod length (FileNames E)) = Some t ->
  (StartNew E s).2 = Ok tt (dispatched E s c t).
Proof.
  intros Hc Ht.
  unfold StartNew. mstep. rewrite Hc. do 2 mstep.
  rewrite list_lookup_insert_eq by (by eapply lookup_lt_Some).
  do 2 mstep.
  pose proof (lookup_lt_Some _ _ _ Ht) as HT.
  destruct (length (FileNames E)) eqn:HL; [lia|].
  rewrite Ht. unfold print_started.
  do 4 mstep.
  unfold step, dispatched, child, seed_of. simpl.
  mstate. rewrite length_insert, <- app_assoc. reflexivity.
Qed.

(** [StartNew] with an empty [FileNames]: the modulo raises. *)
Lemma StartNew_out_empty s c :
  cmds s !! NextURLNo s = Some c ->
  FileNames E = [] ->
  (StartNew E s).2 = Raise ZeroDivisionError (half_dispatched E s c).
Proof.
  intros Hc Ht.
  unfold StartNew. mstep. rewrite Hc. do 2 mstep.
  rewrite list_lookup_insert_eq by (by eapply lookup_lt_Some).
  do 2 mstep. rewrite Ht. simpl. unfold half_dispatched, child, seed_of.
  mstate. reflexivity.
Qed.

(** [StartNew] past the end of the queue. *)
Lemma StartNew_out_past s :
  cmds s !! NextURLNo s = None ->
  (StartNew E s).2 = Raise IndexError s.
Proof. intros Hc. unfold StartNew. mstep. by rewrite Hc. Qed.

End RoutineEffects.
Section Reap.

Context (E : Env).

Lemma range_neg_S k :
  Py.range (- Z.of_nat (S k)) 0
  = (- Z.of_nat (S k))%Z :: Py.range (- Z.of_nat k) 0.
Proof.
  unfold Py.range.
  replace (Z.to_nat (0 - - Z.of_nat (S k))) with (S k) by lia.
  replace (Z.to_nat (0 - - Z.of_nat k)) with k by lia.
  cbn [seq map]. rewrite <- seq_shift, map_map. f_equal; [lia ..|].
  apply map_ext. intros i. lia.
Qed.

Lemma index_from_end {A} (kept rest : list A) h :
  Py.index (kept ++ h :: rest) (- Z.of_nat (S (length rest))) = Some h.
Proof.
  unfold Py.index. rewrite length_app. simpl length.
  destruct (Z.ltb_spec (- Z.of_nat (S (length rest))) 0); [|lia].
  destruct (Z.ltb_spec (- Z.of_nat (S (length rest)))
              (- Z.of_nat (length kept + S (length rest)))); [lia|].
  apply list_lookup_middle. lia.
Qed.

Lemma del_from_end {A} (kept rest : list A) h :
  Py.del (kept ++ h :: rest) (- Z.of_nat (S (length rest)))
  = Some (kept ++ rest).
Proof.
  unfold Py.del. rewrite length_app. simpl length.
  destruct (Z.ltb_spec (- Z.of_nat (S (length rest))) 0); [|lia].
  destruct (Z.ltb_spec (- Z.of_nat (S (length rest)))
              (- Z.of_nat (length kept + S (length rest)))); [lia|].
  f_equal.
  replace (Z.to_nat (Z.of_nat (length kept + S (length rest))
                     + - Z.of_nat (S (length rest)))) with (length kept)
    by lia.
  apply delete_middle.
Qed.

Lemma reap_body_out kept rest h s :
  Processes s = kept ++ h :: rest ->
  (reap_body E (- Z.of_nat (S (length rest))) s).2
  = Ok tt (if running E (clock s) h
           then emit (polled E (clock s) h) s
           else set_Processes (kept ++ rest) (emit (polled E (clock s) h) s)).
Proof.
  intros HP. unfold reap_body. mstep.
  rewrite HP, index_from_end.
  erewrite out_bind by reflexivity. cbv beta.
  unfold running, polled.
  destruct (exit_status E h (clock s)) as [code|]; [|reflexivity].
  mstep. rewrite HP, del_from_end. reflexivity.
Qed.

Lemma reap_loop_out rest : forall kept s,
  Processes s = kept ++ rest ->
  (for_each (Py.range (- Z.of_nat (length rest)) 0) (reap_body E) s).2
  = Ok tt (reap_from E kept rest s).
Proof.
  induction rest as [|h rest IH]; intros kept s HP.
  - unfold reap_from. simpl. rewrite <- HP, app_nil_r. by destruct s.
  - simpl length. rewrite range_neg_S. simpl for_each.
    erewrite out_bind by (by apply reap_body_out).
    destruct (running E (clock s) h) eqn:Hrun.
    + rewrite (IH (kept ++ [h])).
      * unfold reap_from. mstate. simpl. rewrite Hrun.
        rewrite <- !app_assoc. reflexivity.
      * mstate. rewrite HP, <- app_assoc. reflexivity.
    + rewrite (IH kept).
      * unfold reap_from. mstate. simpl. rewrite Hrun.
        rewrite <- !app_assoc. reflexivity.
      * reflexivity.
Qed.

Lemma reap_out s : (reap E s).2 = Ok tt (reaped E s).
Proof. unfold reap. mstep. by apply reap_loop_out. Qed.

End Reap.

(** ** Runs of the launcher *)

Section Runs.

Context (E : Env) (queue : list Job).

Lemma has_slot_lookup s :
  has_slot E s = true -> is_Some (cmds s !! NextURLNo s).
Proof.
  unfold has_slot. intros H. apply andb_true_iff in H as [_ H].
  apply lookup_lt_is_Some_2. by apply Nat.ltb_lt in H.
Qed.

Lemma has_slot_slept secs s : has_slot E (slept secs s) = has_slot E s.
Proof. reflexivity. Qed.

Lemma refill_out_stop fuel s :
  has_slot E s = false -> (refill E fuel s).2 = Ok tt s.
Proof.
  intros H. destruct fuel; simpl; mstep; fold (has_slot E s);
    by rewrite H.
Qed.

Lemma refill_out_fuel s :
  has_slot E s = true -> (refill E 0 s).2 = OutOfFuel s.
Proof. intros H. simpl. mstep. fold (has_slot E s). by rewrite H. Qed.

Lemma refill_out_go fuel s :
  has_slot E s = true ->
  (refill E (S fuel) s).2
  = ((StartNew E ≫= fun _ => refill E fuel) (slept 1 s)).2.
Proof.
  intros H. simpl. mstep. fold (has_slot E s). rewrite H.
  by erewrite out_bind by apply sleep_out.
Qed.

Lemma refill_out_dispatch fuel s c t :
  has_slot E s = true ->
  cmds s !! NextURLNo s = Some c ->
  FileNames E !! (NextURLNo s mod length (FileNames E)) = Some t ->
  (refill E (S fuel) s).2
  = (refill E fuel (dispatched E (slept 1 s) c t)).2.
Proof.
  intros H Hc Ht. rewrite refill_out_go by done.
  by erewrite out_bind by (by apply StartNew_out).
Qed.

Lemma FileNames_lookup k :
  FileNames E <> [] ->
  is_Some (FileNames E !! (k mod length (FileNames E))).
Proof.
  intros H. apply lookup_lt_is_Some_2, Nat.mod_upper_bound.
  destruct (FileNames E); [done | simpl; lia].
Qed.

Lemma refill_reachable fuel : forall s,
  reachable E queue s ->
  outcome_reachable E queue (refill E fuel s).2.
Proof.
  induction fuel as [|fuel IH]; intros s Hs.
  - destruct (has_slot E s) eqn:Hg.
    + by rewrite refill_out_fuel.
    + by rewrite refill_out_stop.
  - destruct (has_slot E s) eqn:Hg; [|by rewrite refill_out_stop].
    destruct (has_slot_lookup s Hg) as [c Hc].
    destruct (FileNames E) as [|t0 ts] eqn:HF.
    + rewrite refill_out_go by done.
      erewrite out_bind_Raise by (by apply StartNew_out_empty).
      simpl. repeat split; try done.
      exists (slept 1 s), c. repeat split; try done.
      by apply reach_sleep.
    + destruct (FileNames_lookup (NextURLNo s)) as [t Ht];
        [by rewrite HF|].
      rewrite (refill_out_dispatch fuel s c t) by done.
      apply IH. apply reach_dispatch; try done. by apply reach_sleep.
Qed.

Lemma reachable_length s :
  reachable E queue s -> length (cmds s) = length queue.
Proof.
  induction 1; try done. simpl. by rewrite length_insert.
Qed.


Lemma CheckRunning_out s :
  (CheckRunning E s).2
  = (refill E (length (cmds s) - NextURLNo s) (reaped E s)).2.
Proof.
  unfold CheckRunning. erewrite out_bind by apply reap_out. by mstep.
Qed.

Lemma CheckRunning_reachable s :
  reachable E queue s ->
  outcome_reachable E queue (CheckRunning E s).2.
Proof.
  intros Hs. rewrite CheckRunning_out.
  apply refill_reachable. by apply reach_reap.
Qed.


Lemma main_loop_out_stop fuel s :
  Processes s = [] -> (main_loop E fuel s).2 = Ok tt s.
Proof. intros H. destruct fuel; simpl; mstep; by rewrite H. Qed.

Lemma main_loop_out_fuel s :
  Processes s <> [] -> (main_loop E 0 s).2 = OutOfFuel s.
Proof. intros H. simpl. mstep. by destruct (Processes s). Qed.

Lemma main_loop_out_go fuel s :
  Processes s <> [] ->
  (main_loop E (S fuel) s).2
  = ((CheckRunning E ≫= fun _ => main_loop E fuel) (slept 60 s)).2.
Proof.
  intros H. simpl. mstep. destruct (Processes s) eqn:HP; [done|].
  simpl. by erewrite out_bind by apply sleep_out.
Qed.

Lemma outcome_bind_reachable {m : M unit} {f : unit -> M unit} s :
  outcome_reachable E queue (m s).2 ->
  (forall s', reachable E queue s' ->
              outcome_reachable E queue (f tt s').2) ->
  outcome_reachable E queue ((m ≫= f) s).2.
Proof.
  intros Hm Hf. destruct (m s).2 as [[] s'|e s'|s'] eqn:Ho.
  - erewrite out_bind by done. by apply Hf.
  - by erewrite out_bind_Raise by done.
  - by erewrite out_bind_OutOfFuel by done.
Qed.

Lemma main_loop_reachable fuel : forall s,
  reachable E queue s ->
  outcome_reachable E queue (main_loop E fuel s).2.
Proof.
  induction fuel as [|fuel IH]; intros s Hs.
  - destruct (Processes s) eqn:HP.
    + by rewrite main_loop_out_stop.
    + rewrite main_loop_out_fuel; [done | by rewrite HP].
  - destruct (Processes s) eqn:HP; [by rewrite main_loop_out_stop|].
    rewrite main_loop_out_go by (by rewrite HP).
    apply outcome_bind_reachable; [|done].
    apply CheckRunning_reachable. by apply reach_sleep.
Qed.

Theorem run_reachable fuel :
  outcome_reachable E queue (run E queue fuel).2.
Proof.
  unfold run. destruct (main E fuel (init queue)) as [t o] eqn:Hm.
  change o with (t, o).2. rewrite <- Hm. unfold main.
  apply outcome_bind_reachable; [|intros; by apply main_loop_reachable].
  apply CheckRunning_reachable, reach_init.
Qed.

End Runs.

(** ** What holds of every reachable state *)

Section LogFacts.

Context (E : Env).

Lemma spawned_polled now l : spawned (map (polled E now) l) = [].
Proof. by induction l. Qed.

Lemma messages_polled now l : messages (map (polled E now) l) = [].
Proof. by induction l. Qed.

Lemma polls_polled now l :
  polls (map (polled E now) l)
  = map (fun p => (p, exit_status E p now)) l.
Proof. induction l as [|p l IH]; simpl; [done|]. by rewrite <- IH. Qed.

Lemma spawned_reaped s : spawned (log (reaped E s)) = spawned (log s).
Proof.
  unfold spawned, reaped, reap_from. simpl. rewrite omap_app.
  fold (spawned (map (polled E (clock s)) (Processes s))).
  by rewrite spawned_polled, app_nil_r.
Qed.

Lemma messages_reaped s : messages (log (reaped E s)) = messages (log s).
Proof.
  unfold messages, reaped, reap_from. simpl. rewrite omap_app.
  fold (messages (map (polled E (clock s)) (Processes s))).
  by rewrite messages_polled, app_nil_r.
Qed.

Lemma polls_reaped s :
  polls (log (reaped E s))
  = polls (log s)
    ++ map (fun p => (p, exit_status E p (clock s))) (Processes s).
Proof.
  unfold polls, reaped, reap_from. simpl. rewrite omap_app.
  fold (polls (map (polled E (clock s)) (Processes s))).
  by rewrite polls_polled.
Qed.

Lemma spawned_slept secs s : spawned (log (slept secs s)) = spawned (log s).
Proof. unfold spawned. simpl. rewrite omap_app. simpl. by rewrite app_nil_r. Qed.

Lemma messages_slept secs s :
  messages (log (slept secs s)) = messages (log s).
Proof. unfold messages. simpl. rewrite omap_app. simpl. by rewrite app_nil_r. Qed.

Lemma polls_slept secs s : polls (log (slept secs s)) = polls (log s).
Proof. unfold polls. simpl. rewrite omap_app. simpl. by rewrite app_nil_r. Qed.

Lemma spawned_dispatched s c t :
  spawned (log (dispatched E s c t)) = spawned (log s) ++ [child E s c].
Proof. unfold spawned. simpl. by rewrite omap_app. Qed.

Lemma messages_dispatched s c t :
  messages (log (dispatched E s c t))
  = messages (log s) ++ [(NextURLNo s + 1, length (cmds s), t)].
Proof. unfold messages. simpl. by rewrite omap_app. Qed.

Lemma polls_dispatched s c t :
  polls (log (dispatched E s c t)) = polls (log s).
Proof. unfold polls. simpl. rewrite omap_app. simpl. by rewrite app_nil_r. Qed.

Lemma spawned_half_dispatched s c :
  spawned (log (half_dispatched E s c)) = spawned (log s) ++ [child E s c].
Proof. unfold spawned. simpl. by rewrite omap_app. Qed.

Lemma messages_half_dispatched s c :
  messages (log (half_dispatched E s c)) = messages (log s).
Proof. unfold messages. simpl. rewrite omap_app. simpl. by rewrite app_nil_r. Qed.

End LogFacts.

Section Invariants.

Context (E : Env) (queue : list Job).

Lemma has_slot_lt s : has_slot E s = true ->
  length (Processes s) < ParalleledNum E /\ NextURLNo s < length (cmds s).
Proof.
  unfold has_slot. intros H. apply andb_true_iff in H as [H1 H2].
  split; by apply Nat.ltb_lt.
Qed.

Lemma reachable_cursor s : reachable E queue s -> cursor_inv queue s.
Proof.
  induction 1 as [|secs s Hs IH|s Hs IH|s c t Hs IH Hg Hc Ht];
    try done.
  - repeat split; simpl; lia.
  - destruct IH as (H1 & H2 & H3 & H4).
    apply has_slot_lt in Hg as [_ Hg].
    repeat split; simpl.
    + lia.
    + lia.
    + by rewrite length_insert.
    + intros i Hi. rewrite list_lookup_insert_ne by lia. apply H4. lia.
Qed.

Lemma reachable_spawned s :
  reachable E queue s ->
  length (spawned (log s)) = NextURLNo s
  /\ in_queue_order queue (spawned (log s)).
Proof.
  induction 1 as [|secs s Hs IH|s Hs IH|s c t Hs IH Hg Hc Ht].
  - split; [done|]. intros k p Hk. done.
  - by rewrite spawned_slept.
  - by rewrite spawned_reaped.
  - destruct IH as [Hlen Hord].
    destruct (reachable_cursor s Hs) as (H1 & H2 & H3 & H4).
    rewrite spawned_dispatched. split.
    + rewrite length_app. simpl. lia.
    + intros k p Hk. apply lookup_app_Some in Hk as [Hk|[Hge Hk]].
      * by apply Hord.
      * rewrite Hlen in *.
        destruct (k - NextURLNo s) as [|d] eqn:Hd; [|done].
        simpl in Hk. injection Hk as <-.
        assert (k = NextURLNo s) as -> by lia.
        split; [simpl; lia|].
        exists c, (seed_of E s). split; [|done].
        rewrite <- H4 by lia. done.
Qed.

Lemma reachable_messages s :
  reachable E queue s ->
  length (messages (log s)) = NextURLNo s
  /\ messages_in_order E queue (messages (log s)).
Proof.
  induction 1 as [|secs s Hs IH|s Hs IH|s c t Hs IH Hg Hc Ht].
  - split; [done|]. intros k pos total t Hk. done.
  - by rewrite messages_slept.
  - by rewrite messages_reaped.
  - destruct IH as [Hlen Hord].
    destruct (reachable_cursor s Hs) as (H1 & H2 & H3 & H4).
    rewrite messages_dispatched. split.
    + rewrite length_app. simpl. lia.
    + intros k pos total t' Hk.
      apply lookup_app_Some in Hk as [Hk|[Hge Hk]].
      * by apply Hord.
      * rewrite Hlen in *.
        destruct (k - NextURLNo s) as [|d] eqn:Hd; [|done].
        simpl in Hk. injection Hk as <- <- <-.
        assert (k = NextURLNo s) as -> by lia. done.
Qed.

End Invariants.

Section ProcessFacts.

Context (E : Env) (queue : list Job).

Lemma elem_of_filter {A} (g : A -> bool) (l : list A) x :
  x ∈ List.filter g l <-> x ∈ l /\ g x = true.
Proof. rewrite !list_elem_of_In. apply filter_In. Qed.

Lemma NoDup_fmap_filter {A B} (f : A -> B) (g : A -> bool) (l : list A) :
  NoDup (f <$> l) -> NoDup (f <$> List.filter g l).
Proof.
  induction l as [|x l IH]; simpl; [done|].
  rewrite NoDup_cons. intros [Hx Hl].
  destruct (g x); [|by apply IH].
  simpl. apply NoDup_cons. split; [|by apply IH].
  intros Hin. apply Hx.
  apply list_elem_of_fmap in Hin as (y & Hy & Hin).
  apply elem_of_filter in Hin as [Hin _].
  apply list_elem_of_fmap. by exists y.
Qed.

Lemma reachable_procs s : reachable E queue s -> procs_inv s.
Proof.
  induction 1 as [|secs s Hs IH|s Hs IH|s c t Hs IH Hg Hc Ht];
    try done.
  - split; simpl; [constructor | apply NoDup_nil_2].
  - destruct IH as [H1 H2]. split; simpl.
    + apply Forall_forall. intros p Hp.
      apply elem_of_filter in Hp as [Hp _].
      rewrite Forall_forall in H1. by apply H1.
    + by apply NoDup_fmap_filter.
  - destruct IH as [H1 H2].
    destruct (reachable_cursor E queue s Hs) as (_ & Hn & _).
    split; simpl.
    + apply Forall_app. split.
      * eapply Forall_impl; [exact H1|]. simpl. intros; lia.
      * repeat constructor. simpl. lia.
    + rewrite fmap_app. apply NoDup_app. split; [done|]. split.
      * intros k Hk Hk'. simpl in Hk'.
        apply list_elem_of_singleton in Hk'. subst k.
        apply list_elem_of_fmap in Hk as (p & Hp & Hin).
        rewrite Forall_forall in H1.
        apply H1 in Hin. lia.
      * simpl. apply NoDup_singleton.
Qed.

Lemma reaped_for_good_app l (new : list Proc) (st : Proc -> option Z) :
  reaped_for_good l ->
  (forall p code q, (p, Some code) ∈ l -> q ∈ new -> pid q <> pid p) ->
  NoDup (pid <$> new) ->
  reaped_for_good (l ++ ((fun p => (p, st p)) <$> new)).
Proof.
  intros Hl Hnew Hnd i j p code q r Hi Hj Hij.
  apply lookup_app_Some in Hi as [Hi|[Hil Hi]];
    apply lookup_app_Some in Hj as [Hj|[Hjl Hj]].
  - by eapply Hl.
  - rewrite list_lookup_fmap in Hj.
    destruct (new !! (j - length l)) as [q'|] eqn:Hq; [|done].
    simpl in Hj. injection Hj as <- <-.
    eapply Hnew.
    + eapply list_elem_of_lookup_2, Hi.
    + eapply list_elem_of_lookup_2, Hq.
  - apply lookup_lt_Some in Hj. lia.
  - rewrite list_lookup_fmap in Hi, Hj.
    destruct (new !! (i - length l)) as [p'|] eqn:Hp; [|done].
    destruct (new !! (j - length l)) as [q'|] eqn:Hq; [|done].
    simpl in Hi, Hj. injection Hi as <- _. injection Hj as <- _.
    intros Heq.
    assert (i - length l = j - length l); [|lia].
    eapply (NoDup_lookup _ _ _ _ Hnd).
    + rewrite list_lookup_fmap, Hp. done.
    + rewrite list_lookup_fmap, Hq. simpl. by rewrite Heq.
Qed.

Lemma reachable_polls s : reachable E queue s -> polls_inv s.
Proof.
  induction 1 as [|secs s Hs IH|s Hs IH|s c t Hs IH Hg Hc Ht].
  - split; [|split]; simpl.
    + intros p r Hp. by apply elem_of_nil in Hp.
    + intros p r Hp. by apply elem_of_nil in Hp.
    + intros i j p code q r Hi. done.
  - unfold polls_inv. by rewrite polls_slept.
  - destruct IH as (H1 & H2 & H3).
    destruct (reachable_procs s Hs) as [HP1 HP2].
    unfold polls_inv. rewrite polls_reaped.
    change (map (fun p => (p, exit_status E p (clock s))) (Processes s))
      with ((fun p => (p, exit_status E p (clock s))) <$> Processes s).
    split; [|split].
    + intros p r Hp. apply elem_of_app in Hp as [Hp|Hp]; [by eapply H1|].
      apply list_elem_of_fmap in Hp as (p' & Heq & Hin).
      injection Heq as -> _.
      rewrite Forall_forall in HP1. by apply HP1.
    + intros p code Hp Hin. simpl in Hin.
      apply list_elem_of_fmap in Hin as (q & Hq & Hin).
      apply elem_of_filter in Hin as [Hin Hrun].
      apply elem_of_app in Hp as [Hp|Hp].
      * eapply H2; [exact Hp|]. apply list_elem_of_fmap. by exists q.
      * apply list_elem_of_fmap in Hp as (p' & Heq & Hin').
        injection Heq as -> Hst.
        assert (p' = q) as ->.
        { apply list_elem_of_lookup in Hin as [i Hi].
          apply list_elem_of_lookup in Hin' as [j Hj].
          assert (i = j) as ->; [|congruence].
          eapply (NoDup_lookup _ _ _ _ HP2).
          - rewrite list_lookup_fmap, Hi. done.
          - rewrite list_lookup_fmap, Hj. simpl. by rewrite Hq. }
        unfold running in Hrun. by rewrite <- Hst in Hrun.
    + apply reaped_for_good_app; [done| |done].
      intros p code q Hp Hq Heq. eapply H2; [exact Hp|].
      apply list_elem_of_fmap. by exists q.
  - destruct IH as (H1 & H2 & H3).
    destruct (reachable_cursor E queue s Hs) as (_ & Hn & _).
    unfold polls_inv. rewrite polls_dispatched.
    split; [|split]; [| |done].
    + intros p r Hp. apply H1 in Hp. simpl. lia.
    + intros p code Hp Hin. simpl in Hin. rewrite fmap_app in Hin.
      apply elem_of_app in Hin as [Hin|Hin]; [by eapply H2|].
      simpl in Hin. apply list_elem_of_singleton in Hin.
      apply H1 in Hp. lia.
Qed.

Lemma reachable_accounted s : reachable E queue s -> accounted s.
Proof.
  induction 1 as [|secs s Hs IH|s Hs IH|s c t Hs IH Hg Hc Ht].
  - intros k Hk. simpl in Hk. lia.
  - unfold accounted. by rewrite polls_slept.
  - intros k Hk. simpl in Hk. rewrite polls_reaped.
    destruct (IH k Hk) as [Hin|(p & code & Hp & Hin)].
    + apply list_elem_of_fmap in Hin as (p & Hp & Hin).
      destruct (exit_status E p (clock s)) as [code|] eqn:Hst.
      * right. exists p, code. split; [done|].
        apply elem_of_app. right.
        apply list_elem_of_In, in_map_iff. exists p.
        split; [by rewrite Hst | by apply list_elem_of_In].
      * left. simpl. apply list_elem_of_fmap. exists p. split; [done|].
        apply elem_of_filter. split; [done|].
        unfold running. by rewrite Hst.
    + right. exists p, code. split; [done|].
      apply elem_of_app. by left.
  - destruct (reachable_cursor E queue s Hs) as (_ & Hn & _).
    intros k Hk. simpl in Hk. rewrite polls_dispatched. simpl.
    rewrite fmap_app.
    destruct (decide (k = NextURLNo s)) as [->|Hne].
    + left. apply elem_of_app. right. simpl.
      apply list_elem_of_singleton. lia.
    + destruct (IH k) as [Hin|Hex]; [lia| |by right].
      left. apply elem_of_app. by left.
Qed.

End ProcessFacts.

(** ** The states a routine passes through *)

Section Traces.

Context (I : State -> Prop).

Lemma triple_ret {A} (P : State -> Prop) (a : A) (Q : A -> State -> Prop) :
  (forall s, P s -> I s /\ Q a s) -> triple I P (ret a) Q.
Proof.
  intros H s Hs. destruct (H s Hs) as [HI HQ]. simpl.
  repeat split; [constructor | done |]. intros ? ? ?; by simplify_eq.
Qed.

Lemma triple_raise {A} (P : State -> Prop) e (Q : A -> State -> Prop) :
  (forall s, P s -> I s) -> triple I P (raise e) Q.
Proof. intros H s Hs. simpl. repeat split; [constructor | auto | done]. Qed.

Lemma triple_out_of_fuel {A} (P : State -> Prop) (Q : A -> State -> Prop) :
  (forall s, P s -> I s) -> triple I P out_of_fuel Q.
Proof. intros H s Hs. simpl. repeat split; [constructor | auto | done]. Qed.

Lemma triple_step (P : State -> Prop) g (Q : unit -> State -> Prop) :
  (forall s, P s -> I (g s) /\ Q tt (g s)) -> triple I P (step g) Q.
Proof.
  intros H s Hs. destruct (H s Hs) as [HI HQ]. simpl.
  repeat split; [by repeat constructor | done |].
  intros ? ? ?; by simplify_eq.
Qed.

Lemma triple_bind {A B} (P : State -> Prop) (m : M A) Q (f : A -> M B) R :
  triple I P m Q -> (forall a, triple I (Q a) (f a) R) ->
  triple I P (m ≫= f) R.
Proof.
  intros Hm Hf s Hs. destruct (Hm s Hs) as (Ht & Hfin & HQ).
  unfold mbind, M_bind, bind.
  destruct (m s) as [t1 [a s1|e s1|s1]]; simpl in *; [|done..].
  destruct (Hf a s1 (HQ a s1 eq_refl)) as (Ht2 & Hfin2 & HR).
  destruct (f a s1) as [t2 o]. simpl in *.
  repeat split; [by apply Forall_app | done | done].
Qed.

Lemma triple_get_bind {A} (P : State -> Prop) (f : State -> M A) R :
  (forall s0, triple I (fun s => P s /\ s = s0) (f s0) R) ->
  triple I P (get ≫= f) R.
Proof. intros H s Hs. rewrite bind_get. by apply (H s). Qed.

Lemma triple_weaken {A} (P P' : State -> Prop) (m : M A)
    (Q Q' : A -> State -> Prop) :
  triple I P' m Q' -> (forall s, P s -> P' s) ->
  (forall a s, Q' a s -> Q a s) -> triple I P m Q.
Proof.
  intros Hm HP HQ s Hs. destruct (Hm s (HP s Hs)) as (Ht & Hfin & H).
  repeat split; [done | done |]. intros a s' Ho. by apply HQ, H.
Qed.

Lemma triple_for_each {A} (xs : list A) (body : A -> M unit)
    (P : State -> Prop) :
  (forall s, P s -> I s) ->
  (forall x, triple I P (body x) (fun _ => P)) ->
  triple I P (for_each xs body) (fun _ => P).
Proof.
  intros HPI Hbody. induction xs as [|x xs IH]; simpl.
  - apply triple_ret. auto.
  - eapply triple_bind; [apply Hbody|]. intros ?. exact IH.
Qed.

End Traces.

Section Bound.

Context (E : Env).

Lemma delete_shrinks {A} (l : list A) i : length (delete i l) <= length l.
Proof.
  revert i. induction l as [|x l IH]; intros [|i]; simpl; try lia.
  specialize (IH i). lia.
Qed.

Lemma del_shrinks {A} (l l' : list A) i :
  Py.del l i = Some l' -> length l' <= length l.
Proof.
  unfold Py.del. intros H.
  repeat case_match; simplify_eq; apply delete_shrinks.
Qed.

Lemma sleep_bounded secs (P : State -> Prop) :
  (forall s, P s -> (bounded E) s) ->
  (forall s, P s -> P (slept secs s)) ->
  triple (bounded E) P (sleep secs) (fun _ => P).
Proof. intros HB HP. apply triple_step. intros s Hs. split; [apply (HB _ (HP _ Hs)) | by apply HP]. Qed.

Lemma reap_body_bounded p :
  triple (bounded E) (bounded E) (reap_body E p) (fun _ => (bounded E)).
Proof.
  unfold reap_body. apply triple_get_bind. intros s0.
  destruct (Py.index (Processes s0) p) as [h|];
    [|apply triple_raise; by intros s [Hs _]].
  eapply triple_bind with (Q := fun _ => (bounded E)).
  { intros s [Hs _]. simpl. repeat split; [by repeat constructor|done|].
    intros ? ? ?; by simplify_eq. }
  intros [code|]; [|apply triple_ret; auto].
  apply triple_get_bind. intros s1.
  destruct (Py.del (Processes s1) p) as [l|] eqn:Hdel;
    [|apply triple_raise; by intros s [Hs _]].
  apply triple_step. intros s [Hs ->]. apply del_shrinks in Hdel.
  unfold bounded in *. simpl. split; lia.
Qed.

Lemma reap_bounded : triple (bounded E) (bounded E) (reap E) (fun _ => (bounded E)).
Proof.
  unfold reap. apply triple_get_bind. intros s0.
  eapply triple_weaken; [apply triple_for_each | |];
    [| intros; apply reap_body_bounded | by intros s [Hs _] | done].
  done.
Qed.

(** With a free slot [StartNew] stays within the bound: the handle is
    appended by its last statement. *)
Lemma StartNew_bounded :
  triple (bounded E) (fun s => length (Processes s) < ParalleledNum E)
    (StartNew E) (fun _ => (bounded E)).
Proof.
  set (free := fun s => length (Processes s) < ParalleledNum E).
  assert (Hfree : forall s, free s -> (bounded E) s)
    by (unfold free, bounded; intros; lia).
  unfold StartNew. apply triple_get_bind. intros s0. cbv zeta.
  destruct (cmds s0 !! NextURLNo s0) as [c|];
    [|apply triple_raise; intros s [Hs _]; auto].
  eapply triple_bind with (Q := fun _ => free).
  { apply triple_step. intros s [Hs _]. split; [apply Hfree|]; exact Hs. }
  intros ?. apply triple_get_bind. intros s1.
  destruct (cmds s1 !! NextURLNo s1) as [args|];
    [|apply triple_raise; intros s [Hs _]; auto].
  eapply triple_bind with (Q := fun _ => free).
  { intros s [Hs _]. simpl.
    repeat split; [repeat constructor; by apply Hfree | by apply Hfree |].
    intros ? ? ?; by simplify_eq. }
  intros proc. apply triple_get_bind. intros s2.
  destruct (length (FileNames E));
    [apply triple_raise; intros s [Hs _]; auto|].
  destruct (FileNames E !! _) as [t|];
    [|apply triple_raise; intros s [Hs _]; auto].
  eapply triple_bind with (Q := fun _ => free).
  { apply triple_step. intros s [Hs _]. split; [apply Hfree|]; exact Hs. }
  intros ?. apply triple_get_bind. intros s3.
  eapply triple_bind with (Q := fun _ => free).
  { apply triple_step. intros s [Hs _]. split; [apply Hfree|]; exact Hs. }
  intros ?. apply triple_get_bind. intros s4.
  apply triple_step. intros s [Hs ->]. unfold bounded, free in *. simpl.
  rewrite length_app. simpl. lia.
Qed.

Lemma refill_bounded fuel :
  triple (bounded E) (bounded E) (refill E fuel) (fun _ => (bounded E)).
Proof.
  induction fuel as [|fuel IH]; simpl; apply triple_get_bind; intros s0.
  - destruct (_ && _); [apply triple_out_of_fuel | apply triple_ret];
      by intros s [Hs _].
  - destruct (_ && _) eqn:Hg; [|apply triple_ret; by intros s [Hs _]].
    apply andb_true_iff in Hg as [Hg _]. apply Nat.ltb_lt in Hg.
    eapply triple_bind
      with (Q := fun _ s => length (Processes s) < ParalleledNum E).
    { apply triple_step. intros s [Hs ->]. unfold bounded. simpl.
      split; lia. }
    intros ?. eapply triple_bind; [apply StartNew_bounded|].
    intros ?. exact IH.
Qed.

Lemma CheckRunning_bounded :
  triple (bounded E) (bounded E) (CheckRunning E) (fun _ => (bounded E)).
Proof.
  unfold CheckRunning. eapply triple_bind; [apply reap_bounded|].
  intros ?. apply triple_get_bind. intros s0.
  eapply triple_weaken; [apply refill_bounded | by intros s [Hs _] | done].
Qed.

Lemma main_loop_bounded fuel :
  triple (bounded E) (bounded E) (main_loop E fuel) (fun _ => (bounded E)).
Proof.
  induction fuel as [|fuel IH]; simpl; apply triple_get_bind; intros s0.
  - destruct (0 <? _); [apply triple_out_of_fuel | apply triple_ret];
      by intros s [Hs _].
  - destruct (0 <? _); [|apply triple_ret; by intros s [Hs _]].
    eapply triple_bind with (Q := fun _ => (bounded E)).
    { apply triple_step. by intros s [Hs _]. }
    intros ?. eapply triple_bind; [apply CheckRunning_bounded|].
    intros ?. exact IH.
Qed.

Lemma main_bounded fuel :
  triple (bounded E) (bounded E) (main E fuel) (fun _ => (bounded E)).
Proof.
  unfold main. eapply triple_bind; [apply CheckRunning_bounded|].
  intros ?. apply main_loop_bounded.
Qed.

End Bound.

(** C1: whatever the parallelism limit, the queue, the list of triples,
    the behaviour of the children and the length of the run, every state
    that the script passes through (the initial one, and the one after
    each statement of [CheckRunning], [StartNew] and the driving loop)
    has at most [ParalleledNum] handles in [Processes]; a dispatch happens
    only below the limit and adds exactly one handle. *)
Theorem C1_active_set_within_limit (E : Env) (queue : list Job) (fuel : nat) :
  Forall (fun s => length (Processes s) <= ParalleledNum E)
    (run E queue fuel).1
  /\ length (Processes (final (run E queue fuel).2)) <= ParalleledNum E
  /\ (forall s c t,
        length (Processes (dispatched E s c t)) = length (Processes s) + 1)
  /\ (forall s fuel',
        ParalleledNum E <= length (Processes s) ->
        (refill E fuel' s).2 = Ok tt s).
Proof.
  split; [|split; [|split]].
  - unfold run.
    destruct (main_bounded E fuel (init queue)) as (Ht & _ & _).
    { unfold bounded. simpl. lia. }
    destruct (main E fuel (init queue)) as [t o]. simpl in *.
    constructor; [simpl; lia | exact Ht].
  - unfold run.
    destruct (main_bounded E fuel (init queue)) as (_ & Hfin & _).
    { unfold bounded. simpl. lia. }
    by destruct (main E fuel (init queue)) as [t o].
  - intros s c t. simpl. by rewrite length_app.
  - intros s fuel' Hfull. apply refill_out_stop. unfold has_slot.
    apply andb_false_iff. left. by apply Nat.ltb_ge.
Qed.

(** ** Outcomes of runs *)

Section Outcomes.

Context (E : Env) (queue : list Job).

Lemma polls_half_dispatched s c :
  polls (log (half_dispatched E s c)) = polls (log s).
Proof. unfold polls. simpl. rewrite omap_app. simpl. by rewrite app_nil_r. Qed.

Lemma outcome_spawned o :
  outcome_reachable E queue o ->
  in_queue_order queue (spawned (log (final o))).
Proof.
  destruct o as [[] s|e s|s]; simpl;
    [by intros [_ ?]%reachable_spawned | |
     by intros [_ ?]%reachable_spawned].
  intros (_ & _ & s0 & c & Hs0 & Hg & Hc & ->).
  destruct (reachable_spawned E queue s0 Hs0) as [Hlen Hord].
  destruct (reachable_cursor E queue s0 Hs0) as (H1 & H2 & H3 & H4).
  rewrite spawned_half_dispatched.
  intros k p Hk. apply lookup_app_Some in Hk as [Hk|[Hge Hk]].
  - by apply Hord.
  - rewrite Hlen in *.
    destruct (k - NextURLNo s0) as [|d] eqn:Hd; [|done].
    simpl in Hk. injection Hk as <-.
    assert (k = NextURLNo s0) as -> by lia.
    split; [simpl; lia|].
    exists c, (seed_of E s0). split; [|done].
    rewrite <- H4 by lia. done.
Qed.

Lemma outcome_messages o :
  outcome_reachable E queue o ->
  messages_in_order E queue (messages (log (final o)))
  /\ length (messages (log (final o))) <= length queue.
Proof.
  assert (H : forall s, reachable E queue s ->
            messages_in_order E queue (messages (log s))
            /\ length (messages (log s)) <= length queue).
  { intros s Hs. destruct (reachable_messages E queue s Hs) as [Hl Ho].
    destruct (reachable_cursor E queue s Hs) as (H1 & _).
    split; [done | lia]. }
  destruct o as [[] s|e s|s]; simpl; [by apply H | | by apply H].
  intros (_ & _ & s0 & c & Hs0 & Hg & Hc & ->).
  rewrite messages_half_dispatched. by apply H.
Qed.

Lemma outcome_polls o :
  outcome_reachable E queue o ->
  reaped_for_good (polls (log (final o))).
Proof.
  destruct o as [[] s|e s|s]; simpl;
    [by intros (_ & _ & ?)%reachable_polls | |
     by intros (_ & _ & ?)%reachable_polls].
  intros (_ & _ & s0 & c & Hs0 & Hg & Hc & ->).
  rewrite polls_half_dispatched.
  by apply reachable_polls in Hs0 as (_ & _ & ?).
Qed.

Lemma outcome_cursor o :
  outcome_reachable E queue o ->
  match o with
  | Ok _ s | OutOfFuel s => length (spawned (log s)) = NextURLNo s
  | Raise _ s => length (spawned (log s)) = NextURLNo s + 1
  end.
Proof.
  destruct o as [[] s|e s|s]; simpl;
    [by intros [? _]%reachable_spawned | |
     by intros [? _]%reachable_spawned].
  intros (_ & _ & s0 & c & Hs0 & Hg & Hc & ->).
  rewrite spawned_half_dispatched, length_app. simpl.
  apply reachable_spawned in Hs0 as [-> _]. done.
Qed.

End Outcomes.

(** ** The reap pass *)

Lemma filter_sublist {A} (g : A -> bool) (l : list A) :
  sublist (List.filter g l) l.
Proof.
  induction l as [|x l IH]; simpl; [constructor|].
  destruct (g x); by constructor.
Qed.

(** C3, the code on an Active Process Set with the older child [A] and
    the newer child [B], both running: the loop over
    [range(-len(Processes), 0)] starts at index [-2], which is element 0,
    so it polls [A] first and [B] second; the comment on that loop and
    the claim say the reverse order, newest first. *)
Theorem C3_reap_polls_oldest_first :
  (argv <$> Processes stateAB) = [["A"; "0703203016"]; ["B"; "0703203017"]]
  /\ (fun e => argv e.1) <$> polls (log (final (reap envAB stateAB).2))
     = [["A"; "0703203016"]; ["B"; "0703203017"]]
  /\ (fun e => argv e.1) <$> polls (log (final (reap envAB stateAB).2))
     <> rev (argv <$> Processes stateAB).
Proof. split; [|split]; [reflexivity | reflexivity | discriminate]. Qed.

(** What a reap pass does, for every state: it walks the indices
    [-len .. -1], that is, it visits the Active Process Set from oldest to
    newest.  It never raises; it polls each member exactly once, in that
    order; it removes exactly the members whose poll gave an exit code and
    keeps the others in their order; it touches nothing else.  Along a
    whole run, a handle that was seen with an exit code is never polled
    again. *)
Theorem reap_pass_effect (E : Env) (s : State) :
  let s' := final (reap E s).2 in
  (reap E s).2 = Ok tt s'
  /\ Processes s'
     = List.filter (fun p => match exit_status E p (clock s) with
                             | None => true | Some _ => false end)
         (Processes s)
  /\ sublist (Processes s') (Processes s)
  /\ (forall p, p ∈ Processes s' <->
                p ∈ Processes s /\ exit_status E p (clock s) = None)
  /\ polls (log s')
     = polls (log s)
       ++ ((fun p => (p, exit_status E p (clock s))) <$> Processes s)
  /\ spawned (log s') = spawned (log s)
  /\ (NextURLNo s', cmds s', clock s', nchildren s')
     = (NextURLNo s, cmds s, clock s, nchildren s)
  /\ (forall queue fuel,
        reaped_for_good (polls (log (final (run E queue fuel).2)))).
Proof.
  cbv zeta. rewrite reap_out. cbn [final].
  split; [done|]. split; [done|]. split; [apply filter_sublist|].
  split; [|split; [|split; [|split]]].
  - intros p. simpl. rewrite elem_of_filter.
    unfold running.
    destruct (exit_status E p (clock s)); split; intros [? ?]; by split.
  - apply polls_reaped.
  - apply spawned_reaped.
  - done.
  - intros queue fuel. eapply outcome_polls, run_reachable.
Qed.

(** ** Dispatch order *)

(** C5: in every run, whatever the children do and return, the [k]-th
    child created runs the [k]-th entry of the queue (plus its seed), the
    [k]-th progress message shows position [k + 1], a dispatch moves the
    cursor by exactly one and creates exactly one child, and the cursor
    equals the number of children created: the Jobs are dispatched in
    queue order, each index at most once. *)
Theorem C5_dispatch_in_queue_order (E : Env) (queue : list Job) (fuel : nat) :
  let s := final (run E queue fuel).2 in
  in_queue_order queue (spawned (log s))
  /\ (forall k pos total t,
        messages (log s) !! k = Some (pos, total, t) -> pos = k + 1)
  /\ length (spawned (log s)) <= length queue
  /\ (forall s0 c t,
        NextURLNo (dispatched E s0 c t) = NextURLNo s0 + 1
        /\ spawned (log (dispatched E s0 c t))
           = spawned (log s0) ++ [child E s0 c])
  /\ match (run E queue fuel).2 with
     | Ok _ s | OutOfFuel s => NextURLNo s = length (spawned (log s))
     | Raise _ _ => True
     end.
Proof.
  cbv zeta. pose proof (run_reachable E queue fuel) as Hr.
  split; [by apply (outcome_spawned E queue _ Hr)|].
  split; [|split; [|split]].
  - intros k pos total t Hk.
    by apply (outcome_messages E queue _ Hr) in Hk as [? _].
  - pose proof (outcome_spawned E queue _ Hr) as Hord.
    destruct (spawned (log (final (run E queue fuel).2))) as [|p l] eqn:Hsp
      using rev_ind; [simpl; lia|].
    rewrite length_app. simpl.
    destruct (Hord (length l) p) as (_ & c & seed & Hc & _).
    { by apply list_lookup_middle. }
    apply lookup_lt_Some in Hc. lia.
  - intros s0 c t. split; [done | apply spawned_dispatched].
  - pose proof (outcome_cursor E queue _ Hr) as Hc.
    by destruct (run E queue fuel).2.
Qed.

(** ** The progress message *)

(** C10: in every run on the queue built from [FileNames], the message
    printed at the dispatch of the Job with index [k] shows position
    [k + 1] and the triple [FileNames[k mod len(FileNames)]], which is the
    triple that [cmds[k]] was built from; the child created at that
    dispatch runs that Job. *)
Theorem C10_message_names_the_job (F : Folders) (Iteration : Z) (E : Env)
    (fuel : nat) :
  let queue := cmds_paralled F Iteration (FileNames E) in
  let s := final (run E queue fuel).2 in
  forall k pos total t,
    messages (log s) !! k = Some (pos, total, t) ->
    pos = k + 1 /\ total = length queue
    /\ FileNames E !! (k mod length (FileNames E)) = Some t
    /\ queue !! k = Some (job_paralled F t)
    /\ forall p, spawned (log s) !! k = Some p ->
         exists seed, argv p = job_paralled F t ++ [seed].
Proof.
  cbv zeta. intros k pos total t Hk.
  pose proof (run_reachable E (cmds_paralled F Iteration (FileNames E)) fuel)
    as Hr.
  destruct (outcome_messages E _ _ Hr) as [Hord Hlen].
  pose proof (lookup_lt_Some _ _ _ Hk) as Hlt.
  destruct (Hord k pos total t Hk) as (Hpos & Htot & Ht).
  destruct (build_cmds_lookup_mod (job_paralled F) (FileNames E) Iteration k)
    as (tr & Htr & Hq); [unfold cmds_paralled in *; lia|].
  assert (tr = t) as -> by congruence.
  repeat split; try done.
  intros p Hp.
  destruct (outcome_spawned E _ _ Hr k p Hp) as (_ & c & seed & Hc & Hargv).
  exists seed. unfold cmds_paralled in Hc. congruence.
Qed.

(** ** The four-Job scenario *)

Section Scenario.

Context (E : Env) (A B C D : Job).
Hypothesis limit_two : ParalleledNum E = 2.
Hypothesis triples : FileNames E <> [].

Let queue : list Job := [A; B; C; D].

Lemma has_slot_true s :
  length (Processes s) < 2 -> NextURLNo s < length (cmds s) ->
  has_slot E s = true.
Proof.
  intros H1 H2. unfold has_slot. rewrite limit_two.
  apply andb_true_iff. split; by apply Nat.ltb_lt.
Qed.

Lemma has_slot_full s : length (Processes s) = 2 -> has_slot E s = false.
Proof.
  intros H. unfold has_slot. rewrite limit_two, H. reflexivity.
Qed.

Lemma Processes_dispatched s c t :
  Processes (dispatched E s c t) = Processes s ++ [child E s c].
Proof. reflexivity. Qed.

Lemma Processes_slept secs s : Processes (slept secs s) = Processes s.
Proof. reflexivity. Qed.

(** The first [CheckRunning]: [A] and [B] are started, in this order. *)
Lemma first_fill :
  exists tA tB,
    let sA := dispatched E (slept 1 (reaped E (init queue))) A tA in
    let sB := dispatched E (slept 1 sA) B tB in
    (CheckRunning E (init queue)).2 = Ok tt sB.
Proof.
  destruct (FileNames_lookup E 0 triples) as [tA HtA].
  destruct (FileNames_lookup E 1 triples) as [tB HtB].
  exists tA, tB. cbv zeta. rewrite CheckRunning_out.
  change (length (cmds (init queue)) - NextURLNo (init queue)) with 4.
  rewrite (refill_out_dispatch E _ _ A tA);
    [|by apply has_slot_true; simpl; lia | done | done].
  rewrite (refill_out_dispatch E _ _ B tB);
    [|by apply has_slot_true; simpl; lia | done | done].
  by rewrite refill_out_stop by (by apply has_slot_full).
Qed.

(** A later [CheckRunning], with [A] seen to have exited and [B] still
    running: [A] is removed and [C], the next Job, is started. *)
Lemma refill_after_A s pA pB :
  Processes s = [pA; pB] -> NextURLNo s = 2 -> cmds s !! 2 = Some C ->
  length (cmds s) = 4 ->
  exit_status E pA (clock s) <> None -> exit_status E pB (clock s) = None ->
  exists tC,
    (CheckRunning E s).2 = Ok tt (dispatched E (slept 1 (reaped E s)) C tC)
    /\ Processes (dispatched E (slept 1 (reaped E s)) C tC)
       = [pB; child E (slept 1 (reaped E s)) C].
Proof.
  intros HP HN HC HL HA HB.
  destruct (FileNames_lookup E 2 triples) as [tC HtC].
  exists tC.
  assert (HR : Processes (reaped E s) = [pB]).
  { simpl. rewrite HP. simpl. unfold running. rewrite HB.
    by destruct (exit_status E pA (clock s)). }
  split.
  - rewrite CheckRunning_out, HL, HN.
    change (4 - 2) with 2.
    rewrite (refill_out_dispatch E _ _ C tC).
    + apply refill_out_stop, has_slot_full.
      by rewrite Processes_dispatched, Processes_slept, HR.
    + apply has_slot_true; [rewrite HR; simpl; lia | simpl; lia].
    + simpl. by rewrite HN.
    + simpl. by rewrite HN.
  - by rewrite Processes_dispatched, Processes_slept, HR.
Qed.

End Scenario.

(** C6: limit 2 and queue [A, B, C, D].  The first [CheckRunning] leaves
    exactly the children of [A] and [B] active, in this order.  If, after
    any sleep, the poll of [A]'s child gives an exit code and that of
    [B]'s child does not, the next [CheckRunning] removes [A]'s child and
    starts exactly one child, that of [C]: the active set is then
    [B, C], the cursor is 3 and [D] is still waiting in the queue. *)
Theorem C6_scenario_ABCD (E : Env) (A B C D : Job) :
  ParalleledNum E = 2 -> FileNames E <> [] ->
  exists s1 pA pB,
    (CheckRunning E (init [A; B; C; D])).2 = Ok tt s1
    /\ Processes s1 = [pA; pB]
    /\ (exists seed, argv pA = A ++ [seed])
    /\ (exists seed, argv pB = B ++ [seed])
    /\ spawned (log s1) = [pA; pB]
    /\ forall secs,
         let s2 := slept secs s1 in
         exit_status E pA (clock s2) <> None ->
         exit_status E pB (clock s2) = None ->
         exists s3 pC,
           (CheckRunning E s2).2 = Ok tt s3
           /\ Processes s3 = [pB; pC]
           /\ (exists seed, argv pC = C ++ [seed])
           /\ spawned (log s3) = [pA; pB; pC]
           /\ NextURLNo s3 = 3
           /\ cmds s3 !! 3 = Some D.
Proof.
  intros HN HF.
  destruct (first_fill E A B C D HN HF) as (tA & tB & Hfill).
  cbv zeta in Hfill.
  set (sA := dispatched E (slept 1 (reaped E (init [A; B; C; D]))) A tA)
    in *.
  set (sB := dispatched E (slept 1 sA) B tB) in *.
  exists sB, (child E (slept 1 (reaped E (init [A; B; C; D]))) A),
    (child E (slept 1 sA) B).
  split; [exact Hfill|]. split; [reflexivity|].
  split; [by eexists|]. split; [by eexists|]. split; [reflexivity|].
  intros secs s2 HA HB.
  destruct (refill_after_A E C HN HF s2 _ _ eq_refl eq_refl eq_refl eq_refl
              HA HB) as (tC & Hout & HP).
  eexists _, _. split; [exact Hout|]. split; [exact HP|].
  split; [by eexists|].
  split; [|split; reflexivity].
  rewrite spawned_dispatched, spawned_slept, spawned_reaped.
  reflexivity.
Qed.

Lemma C6_scenario_witness :
  exists s1 pA pB,
    (CheckRunning envABCD (init [["A"]; ["B"]; ["C"]; ["D"]])).2 = Ok tt s1
    /\ Processes s1 = [pA; pB]
    /\ (exists seed, argv pA = ["A"] ++ [seed])
    /\ (exists seed, argv pB = ["B"] ++ [seed])
    /\ spawned (log s1) = [pA; pB]
    /\ forall secs,
         let s2 := slept secs s1 in
         exit_status envABCD pA (clock s2) <> None ->
         exit_status envABCD pB (clock s2) = None ->
         exists s3 pC,
           (CheckRunning envABCD s2).2 = Ok tt s3
           /\ Processes s3 = [pB; pC]
           /\ (exists seed, argv pC = ["C"] ++ [seed])
           /\ spawned (log s3) = [pA; pB; pC]
           /\ NextURLNo s3 = 3
           /\ cmds s3 !! 3 = Some ["D"].
Proof.
  apply (C6_scenario_ABCD envABCD ["A"] ["B"] ["C"] ["D"]);
    [reflexivity | discriminate].
Defined.

(** The scenario run on a concrete machine: [A] exits after 30 seconds,
    the others after 100, and the driving loop sleeps 60 seconds. *)
Example scenario_ABCD_run :
  let s1 := final (CheckRunning envABCD
                     (init [["A"]; ["B"]; ["C"]; ["D"]])).2 in
  let s3 := final (CheckRunning envABCD (slept 60 s1)).2 in
  (argv <$> Processes s1) = [["A"; "0703203016"]; ["B"; "0703203017"]]
  /\ (argv <$> Processes s3) = [["B"; "0703203017"]; ["C"; "0703203118"]]
  /\ NextURLNo s3 = 3 /\ cmds s3 !! 3 = Some ["D"].
Proof. vm_compute. repeat split. Qed.

(** ** Termination of the driving loop *)

Section Termination.

Context (E : Env) (queue : list Job).

Lemma refill_Ok_full fuel : forall s s',
  (refill E fuel s).2 = Ok tt s' -> has_slot E s' = false.
Proof.
  induction fuel as [|fuel IH]; intros s s' Ho.
  - destruct (has_slot E s) eqn:Hg.
    + by rewrite refill_out_fuel in Ho.
    + rewrite refill_out_stop in Ho by done. by simplify_eq.
  - destruct (has_slot E s) eqn:Hg.
    + rewrite refill_out_go in Ho by done.
      destruct (StartNew E (slept 1 s)).2 as [[] s1|e s1|s1] eqn:Hs.
      * erewrite out_bind in Ho by done. by eapply IH.
      * by erewrite out_bind_Raise in Ho by done.
      * by erewrite out_bind_OutOfFuel in Ho by done.
    + rewrite refill_out_stop in Ho by done. by simplify_eq.
Qed.

Lemma CheckRunning_Ok_full s s' :
  (CheckRunning E s).2 = Ok tt s' -> has_slot E s' = false.
Proof. rewrite CheckRunning_out. apply refill_Ok_full. Qed.

Lemma main_loop_Ok_done fuel : forall s s',
  has_slot E s = false ->
  (main_loop E fuel s).2 = Ok tt s' ->
  Processes s' = [] /\ has_slot E s' = false.
Proof.
  induction fuel as [|fuel IH]; intros s s' Hfull Ho.
  - destruct (Processes s) eqn:HP.
    + rewrite main_loop_out_stop in Ho by done. by simplify_eq.
    + rewrite main_loop_out_fuel in Ho; [done | by rewrite HP].
  - destruct (Processes s) eqn:HP.
    + rewrite main_loop_out_stop in Ho by done. by simplify_eq.
    + rewrite main_loop_out_go in Ho by (by rewrite HP).
      destruct (CheckRunning E (slept 60 s)).2 as [[] s1|e s1|s1] eqn:Hs.
      * erewrite out_bind in Ho by done.
        eapply IH; [|exact Ho]. by eapply CheckRunning_Ok_full.
      * by erewrite out_bind_Raise in Ho by done.
      * by erewrite out_bind_OutOfFuel in Ho by done.
Qed.

Lemma main_Ok_done fuel s' :
  (main E fuel (init queue)).2 = Ok tt s' ->
  Processes s' = [] /\ has_slot E s' = false.
Proof.
  unfold main. intros Ho.
  destruct (CheckRunning E (init queue)).2 as [[] s1|e s1|s1] eqn:Hs.
  - erewrite out_bind in Ho by done.
    eapply main_loop_Ok_done; [|exact Ho]. by eapply CheckRunning_Ok_full.
  - by erewrite out_bind_Raise in Ho by done.
  - by erewrite out_bind_OutOfFuel in Ho by done.
Qed.

Lemma run_out fuel : (run E queue fuel).2 = (main E fuel (init queue)).2.
Proof. unfold run. by destruct (main E fuel (init queue)). Qed.

(** *** The cost of the active children *)

Lemma active_cost_app now l1 l2 :
  active_cost E now (l1 ++ l2)
  = active_cost E now l1 + active_cost E now l2.
Proof. induction l1 as [|p l1 IH]; simpl; [done|]. rewrite IH. lia. Qed.

Lemma active_cost_later now now' l :
  now <= now' -> active_cost E now' l <= active_cost E now l.
Proof. intros H. induction l as [|p l IH]; simpl; lia. Qed.

Lemma active_cost_reap now now' l :
  now < now' ->
  Forall (fun p => is_Some (runtime E (pid p))) l ->
  active_cost E now' (List.filter (running E now') l) + length l
  <= active_cost E now l.
Proof.
  intros Hlt. induction 1 as [|p l [d Hd] Hl IH]; simpl; [done|].
  unfold running at 1, exit_status. rewrite Hd.
  destruct (Nat.leb_spec (started p + d) now'); simpl.
  - lia.
  - unfold dur. rewrite Hd. simpl. lia.
Qed.

(** *** One round *)

Hypothesis exits : forall k, k < length queue -> is_Some (runtime E k).
Hypothesis triples : FileNames E <> [] \/ queue = [].

Lemma reachable_exits s :
  reachable E queue s ->
  Forall (fun p => is_Some (runtime E (pid p))) (Processes s).
Proof.
  intros Hs. destruct (reachable_procs E queue s Hs) as [HP _].
  destruct (reachable_cursor E queue s Hs) as (Hn & _).
  eapply Forall_impl; [exact HP|]. simpl. intros p Hp. apply exits. lia.
Qed.

Lemma work_left_dispatched s c t :
  reachable E queue s -> has_slot E s = true ->
  work_left E (dispatched E (slept 1 s) c t) <= work_left E s.
Proof.
  intros Hs Hg. apply has_slot_lt in Hg as [_ Hg].
  destruct (reachable_cursor E queue s Hs) as (_ & Hn & _).
  unfold work_left. simpl. rewrite length_insert, active_cost_app. simpl.
  destruct (length (cmds s) - NextURLNo s) as [|m] eqn:Hm; [lia|].
  replace (length (cmds s) - (NextURLNo s + 1)) with m by lia.
  simpl. rewrite Hn. replace (NextURLNo s + 1) with (S (NextURLNo s)) by lia.
  pose proof (active_cost_later (clock s) (clock s + 1) (Processes s)).
  lia.
Qed.

Lemma refill_terminates fuel : forall s,
  reachable E queue s ->
  length (cmds s) - NextURLNo s <= fuel ->
  exists s', (refill E fuel s).2 = Ok tt s'
    /\ reachable E queue s' /\ work_left E s' <= work_left E s.
Proof.
  induction fuel as [|fuel IH]; intros s Hs Hf.
  - exists s. split; [|done]. apply refill_out_stop.
    unfold has_slot. apply andb_false_iff. right. apply Nat.ltb_ge. lia.
  - destruct (has_slot E s) eqn:Hg;
      [|exists s; split; [by apply refill_out_stop | done]].
    destruct (has_slot_lookup E s Hg) as [c Hc].
    assert (HF : FileNames E <> []).
    { destruct triples as [?| ->]; [done|].
      apply has_slot_lt in Hg as [_ Hg].
      rewrite (reachable_length E [] s Hs) in Hg. simpl in Hg. lia. }
    destruct (FileNames_lookup E (NextURLNo s) HF) as [t Ht].
    rewrite (refill_out_dispatch E fuel s c t) by done.
    destruct (IH (dispatched E (slept 1 s) c t)) as (s' & Ho & Hr & Hw).
    + apply reach_dispatch; try done. by apply reach_sleep.
    + simpl. rewrite length_insert. apply lookup_lt_Some in Hc. lia.
    + exists s'. split; [done|]. split; [done|].
      pose proof (work_left_dispatched s c t Hs Hg). lia.
Qed.

Lemma CheckRunning_terminates s :
  reachable E queue s ->
  exists s', (CheckRunning E s).2 = Ok tt s'
    /\ reachable E queue s' /\ work_left E s' <= work_left E (reaped E s).
Proof.
  intros Hs. rewrite CheckRunning_out.
  apply refill_terminates; [by apply reach_reap | done].
Qed.

Lemma round_shrinks s :
  reachable E queue s -> Processes s <> [] ->
  work_left E (reaped E (slept 60 s)) < work_left E s.
Proof.
  intros Hs HP. unfold work_left. simpl.
  pose proof (active_cost_reap (clock s) (clock s + 60) (Processes s)
                ltac:(lia) (reachable_exits s Hs)).
  destruct (Processes s); [done|]. simpl in *. lia.
Qed.

Lemma main_loop_terminates fuel : forall s,
  reachable E queue s -> work_left E s <= fuel ->
  exists s', (main_loop E fuel s).2 = Ok tt s'.
Proof.
  induction fuel as [|fuel IH]; intros s Hs Hw.
  - exists s. apply main_loop_out_stop.
    destruct (Processes s) eqn:HP; [done|].
    unfold work_left in Hw. rewrite HP in Hw. simpl in Hw. lia.
  - destruct (Processes s) eqn:HP;
      [exists s; by apply main_loop_out_stop|].
    rewrite main_loop_out_go by (by rewrite HP).
    destruct (CheckRunning_terminates (slept 60 s)) as (s1 & Ho & Hr & Hw1);
      [by apply reach_sleep|].
    erewrite out_bind by done.
    apply IH; [done|].
    pose proof (round_shrinks s Hs ltac:(by rewrite HP)). lia.
Qed.

Lemma main_terminates :
  exists fuel s', (main E fuel (init queue)).2 = Ok tt s'.
Proof.
  destruct (CheckRunning_terminates (init queue)) as (s1 & Ho & Hr & Hw);
    [apply reach_init|].
  destruct (main_loop_terminates (work_left E s1) s1 Hr) as [s' Hs'];
    [done|].
  exists (work_left E s1), s'. unfold main. by erewrite out_bind by done.
Qed.

End Termination.

Section LoopEnd.

Context (E : Env) (queue : list Job).

(** A poll that gave an exit code was of a child that does exit. *)
Lemma reachable_polls_exit s :
  reachable E queue s ->
  forall p code, (p, Some code) ∈ polls (log s) ->
    is_Some (runtime E (pid p)).
Proof.
  induction 1 as [|secs s Hs IH|s Hs IH|s c t Hs IH Hg Hc Ht];
    intros p code Hp.
  - by apply elem_of_nil in Hp.
  - rewrite polls_slept in Hp. by eapply IH.
  - rewrite polls_reaped in Hp.
    apply elem_of_app in Hp as [Hp|Hp]; [by eapply IH|].
    apply list_elem_of_In, in_map_iff in Hp as (q & Heq & _).
    injection Heq as -> Hst. unfold exit_status in Hst.
    by destruct (runtime E (pid p)).
  - rewrite polls_dispatched in Hp. by eapply IH.
Qed.

Lemma run_Ok_all_done fuel s' :
  1 <= ParalleledNum E ->
  (run E queue fuel).2 = Ok tt s' ->
  NextURLNo s' = length queue /\ Processes s' = []
  /\ forall k, k < length queue ->
       exists p code, pid p = k /\ (p, Some code) ∈ polls (log s')
                      /\ is_Some (runtime E k).
Proof.
  intros HN Ho. pose proof (run_reachable E queue fuel) as Hr.
  rewrite Ho in Hr. simpl in Hr.
  rewrite run_out in Ho. apply main_Ok_done in Ho as [HP Hfull].
  destruct (reachable_cursor E queue s' Hr) as (Hle & _ & Hlen & _).
  assert (Hnext : NextURLNo s' = length queue).
  { unfold has_slot in Hfull. rewrite HP in Hfull. simpl in Hfull.
    apply andb_false_iff in Hfull as [Hfull|Hfull].
    - apply Nat.ltb_ge in Hfull. lia.
    - apply Nat.ltb_ge in Hfull. lia. }
  split; [done|]. split; [done|]. intros k Hk.
  destruct (reachable_accounted E queue s' Hr k) as [Hin|(p & code & Hp & Hin)];
    [lia | by rewrite HP in Hin; apply elem_of_nil in Hin |].
  exists p, code. split; [done|]. split; [done|].
  rewrite <- Hp. by eapply reachable_polls_exit.
Qed.

End LoopEnd.

(** C4, as the claim states it, fails: with limit 0 the driving loop ends
    at once, nothing was dispatched, and the only Job of the queue is
    still undispatched. *)
Lemma C4_counterexample :
  let queue := cmds_paralled paralled_folders 1 (FileNames env_limit0) in
  exists s, (run env_limit0 queue 0).2 = Ok tt s
    /\ length queue = 1 /\ NextURLNo s = 0 /\ spawned (log s) = []
    /\ NextURLNo s <> length (cmds s).
Proof.
  cbv zeta. eexists. split; [vm_compute; reflexivity|].
  repeat split. simpl. lia.
Qed.

(** C4, amended: with a parallelism limit of at least 1, the driving loop
    ends exactly when every Job of the queue has been dispatched and every
    child has been seen to exit.  When a run ends, the cursor is at the
    end of the queue, [Processes] is empty and each child was polled with
    an exit code; the loop stops as soon as [Processes] is empty and goes
    on for another round otherwise.  If every child exits after some
    time, every run with enough fuel ends; if a run ends, every child did
    exit. *)
Theorem C4_loop_ends_iff_all_done (E : Env) (queue : list Job) :
  1 <= ParalleledNum E ->
  (forall fuel s', (run E queue fuel).2 = Ok tt s' ->
     NextURLNo s' = length queue /\ Processes s' = []
     /\ forall k, k < length queue ->
          exists p code, pid p = k /\ (p, Some code) ∈ polls (log s')
                         /\ is_Some (runtime E k))
  /\ (forall fuel s, Processes s = [] -> (main_loop E fuel s).2 = Ok tt s)
  /\ (forall fuel s, Processes s <> [] ->
        (main_loop E (S fuel) s).2
        = ((CheckRunning E ≫= fun _ => main_loop E fuel) (slept 60 s)).2)
  /\ ((forall k, k < length queue -> is_Some (runtime E k)) ->
      FileNames E <> [] \/ queue = [] ->
      exists bound, forall fuel, bound <= fuel ->
        exists s', (run E queue fuel).2 = Ok tt s').
Proof.
  intros HN. split; [|split; [|split]].
  - intros fuel s'. by apply run_Ok_all_done.
  - intros fuel s. apply main_loop_out_stop.
  - intros fuel s. apply main_loop_out_go.
  - intros Hex HF.
    destruct (CheckRunning_terminates E queue Hex HF (init queue))
      as (s1 & Ho & Hr & Hw); [apply reach_init|].
    exists (work_left E s1). intros fuel Hfuel.
    destruct (main_loop_terminates E queue Hex HF fuel s1 Hr Hfuel)
      as [s' Hs'].
    exists s'. rewrite run_out. unfold main. by erewrite out_bind by done.
Qed.

Lemma C4_loop_ends_witness :
  let queue := cmds_paralled paralled_folders 1 (FileNames env_paralled) in
  (exists bound, forall fuel, bound <= fuel ->
     exists s', (run env_paralled queue fuel).2 = Ok tt s')
  /\ exists s', (run env_paralled queue 3).2 = Ok tt s'
       /\ NextURLNo s' = 2 /\ Processes s' = [].
Proof.
  cbv zeta.
  destruct (C4_loop_ends_iff_all_done env_paralled
              (cmds_paralled paralled_folders 1 (FileNames env_paralled)))
    as (Hend & _ & _ & Hlive); [simpl; lia|].
  split.
  - apply Hlive; [intros k _; by eexists | left; discriminate].
  - eexists. split; [vm_compute; reflexivity|].
    split; reflexivity.
Defined.

Lemma C10_message_witness :
  let t := ("Sv5r10", "JOSi1000o500", "SEQUn") in
  let queue := cmds_paralled paralled_folders 1 (FileNames env_paralled) in
  messages (log (final (run env_paralled queue 3).2)) !! 1 = Some (2, 2, t)
  /\ FileNames env_paralled !! (1 mod length (FileNames env_paralled)) = Some t
  /\ queue !! 1 = Some (job_paralled paralled_folders t).
Proof.
  cbv zeta.
  assert (H : messages
                (log (final (run env_paralled
                   (cmds_paralled paralled_folders 1 (FileNames env_paralled))
                   3).2)) !! 1
              = Some (2, 2, ("Sv5r10", "JOSi1000o500", "SEQUn")))
    by (vm_compute; reflexivity).
  split; [exact H|].
  destruct (C10_message_names_the_job paralled_folders 1 env_paralled 3
              1 2 2 ("Sv5r10", "JOSi1000o500", "SEQUn") H)
    as (_ & _ & Ht & Hq & _).
  split; [exact Ht | exact Hq].
Defined.

(** ** The CSV fix-up *)

Module FootprintsFacts.
Import Footprints.

Lemma index_of_lookup name cols i :
  index_of name cols = Some i -> cols !! i = Some name.
Proof.
  revert i. induction cols as [|c cols IH]; intros i; simpl; [done|].
  destruct (String.eqb_spec c name) as [->|Hne].
  - by intros [= <-].
  - destruct (index_of name cols) as [j|]; [|done].
    simpl. intros [= <-]. by apply IH.
Qed.

Lemma index_of_elem name cols :
  name ∈ cols -> is_Some (index_of name cols).
Proof.
  induction cols as [|c cols IH]; intros Hin; [by apply elem_of_nil in Hin|].
  simpl. destruct (String.eqb_spec c name) as [->|Hne]; [by eexists|].
  apply elem_of_cons in Hin as [->|Hin]; [done|].
  destruct (IH Hin) as [j ->]. by eexists.
Qed.

Lemma fix_row_fixed P cols row row' :
  fix_row P cols row = Some row' -> row_fixed P cols row row'.
Proof.
  unfold fix_row. intros H.
  destruct (cell cols row "Instance") as [a|] eqn:Ha; [|done].
  destruct (cell cols row "NBots") as [b|] eqn:Hb; [|done].
  destruct (index_of "Instance" cols) as [i|] eqn:Hi; [|done].
  simpl in H. injection H as <-.
  exists a, b. split; [done|]. split; [done|]. split.
  - unfold cell in *. rewrite Hi in *. simpl in *.
    apply list_lookup_insert_eq. by eapply lookup_lt_Some.
  - intros name Hne. unfold cell.
    destruct (index_of name cols) as [j|] eqn:Hj; [|done]. simpl.
    apply list_lookup_insert_ne. intros ->.
    apply index_of_lookup in Hi, Hj. congruence.
Qed.

Lemma fix_row_is_Some P cols row :
  "NBots" ∈ cols -> "Instance" ∈ cols -> length row = length cols ->
  is_Some (fix_row P cols row).
Proof.
  intros Hn Hi Hlen. unfold fix_row, cell.
  destruct (index_of_elem _ _ Hi) as [i Hi'].
  destruct (index_of_elem _ _ Hn) as [j Hj'].
  rewrite Hi', Hj'. simpl.
  destruct (lookup_lt_is_Some_2 row i) as [a ->].
  { rewrite Hlen. by eapply lookup_lt_Some, index_of_lookup. }
  destruct (lookup_lt_is_Some_2 row j) as [b ->].
  { rewrite Hlen. by eapply lookup_lt_Some, index_of_lookup. }
  by eexists.
Qed.



End FootprintsFacts.

(** ** An induction principle for runs *)

Section RunInduction.

Context (E : Env) (Inv : State -> Prop).
Hypothesis Inv_sleep : forall secs s, Inv s -> Inv (slept secs s).
Hypothesis Inv_reap : forall s, Inv s -> Inv (reaped E s).
Hypothesis Inv_dispatch : forall s c t,
  Inv s -> has_slot E s = true ->
  cmds s !! NextURLNo s = Some c ->
  FileNames E !! (NextURLNo s mod length (FileNames E)) = Some t ->
  Inv (dispatched E (slept 1 s) c t).

Lemma refill_holds fuel : forall s,
  Inv s -> holds_unless_raised Inv (refill E fuel s).2.
Proof.
  induction fuel as [|fuel IH]; intros s Hs.
  - destruct (has_slot E s) eqn:Hg.
    + by rewrite refill_out_fuel.
    + by rewrite refill_out_stop.
  - destruct (has_slot E s) eqn:Hg; [|by rewrite refill_out_stop].
    destruct (has_slot_lookup E s Hg) as [c Hc].
    destruct (FileNames E) as [|t0 ts] eqn:HF.
    + rewrite refill_out_go by done.
      by erewrite out_bind_Raise by (by apply StartNew_out_empty).
    + destruct (FileNames_lookup E (NextURLNo s)) as [t Ht];
        [by rewrite HF|].
      rewrite (refill_out_dispatch E fuel s c t) by done.
      apply IH. rewrite <- HF in *. by apply Inv_dispatch.
Qed.

Lemma holds_bind (m : M unit) (f : unit -> M unit) s :
  holds_unless_raised Inv (m s).2 ->
  (forall s', Inv s' -> holds_unless_raised Inv (f tt s').2) ->
  holds_unless_raised Inv ((m ≫= f) s).2.
Proof.
  intros Hm Hf. destruct (m s).2 as [[] s'|e s'|s'] eqn:Ho.
  - erewrite out_bind by done. by apply Hf.
  - by erewrite out_bind_Raise by done.
  - by erewrite out_bind_OutOfFuel by done.
Qed.

Lemma CheckRunning_holds s :
  Inv s -> holds_unless_raised Inv (CheckRunning E s).2.
Proof.
  intros Hs. rewrite CheckRunning_out. by apply refill_holds, Inv_reap.
Qed.

Lemma main_loop_holds fuel : forall s,
  Inv s -> holds_unless_raised Inv (main_loop E fuel s).2.
Proof.
  induction fuel as [|fuel IH]; intros s Hs.
  - destruct (Processes s) eqn:HP.
    + by rewrite main_loop_out_stop.
    + rewrite main_loop_out_fuel; [done | by rewrite HP].
  - destruct (Processes s) eqn:HP; [by rewrite main_loop_out_stop|].
    rewrite main_loop_out_go by (by rewrite HP).
    apply holds_bind; [|done]. by apply CheckRunning_holds, Inv_sleep.
Qed.

Lemma run_holds queue fuel :
  Inv (init queue) -> holds_unless_raised Inv (run E queue fuel).2.
Proof.
  intros H0. rewrite run_out. unfold main.
  apply holds_bind; [by apply CheckRunning_holds|].
  intros s' Hs'. by apply main_loop_holds.
Qed.

End RunInduction.

(** ** Exceptions of the launcher *)




(** X2: the two ways [StartNew] fails.  With the cursor past the end of
    the queue it raises [IndexError] before any statement took effect.
    With an empty [FileNames] it raises [ZeroDivisionError] at the
    progress message, that is after the seed was appended to the queue
    entry and the child was created: the child runs, but it is not in
    [Processes], the cursor has not moved and no message was printed. *)
Theorem StartNew_failures (E : Env) (s : State) :
  (cmds s !! NextURLNo s = None ->
     StartNew E s = ([], Raise IndexError s))
  /\ (forall c, cmds s !! NextURLNo s = Some c -> FileNames E = [] ->
        exists s', (StartNew E s).2 = Raise ZeroDivisionError s'
          /\ spawned (log s') = spawned (log s) ++ [child E s c]
          /\ argv (child E s c) = c ++ [seed_of E s]
          /\ Processes s' = Processes s
          /\ NextURLNo s' = NextURLNo s
          /\ messages (log s') = messages (log s)
          /\ cmds s' !! NextURLNo s = Some (c ++ [seed_of E s])).
Proof.
  split.
  - intros Hc. unfold StartNew. rewrite bind_get. cbv beta zeta.
    by rewrite Hc.
  - intros c Hc HF. exists (half_dispatched E s c).
    split; [by apply StartNew_out_empty|].
    split; [apply spawned_half_dispatched|]. split; [done|].
    split; [done|]. split; [done|].
    split; [apply messages_half_dispatched|].
    simpl. apply list_lookup_insert_eq. by eapply lookup_lt_Some.
Qed.

Lemma StartNew_failures_witness :
  StartNew env_no_triples (init []) = ([], Raise IndexError (init []))
  /\ exists s',
       (StartNew env_no_triples (init [["dotnet"; "run"]])).2
       = Raise ZeroDivisionError s'
       /\ Processes s' = [] /\ NextURLNo s' = 0
       /\ length (spawned (log s')) = 1.
Proof.
  destruct (StartNew_failures env_no_triples (init [])) as [H1 _].
  destruct (StartNew_failures env_no_triples (init [["dotnet"; "run"]]))
    as [_ H2].
  split; [by apply H1|].
  destruct (H2 ["dotnet"; "run"] eq_refl eq_refl)
    as (s' & Ho & Hsp & _ & HP & HN & _).
  exists s'. split; [done|]. split; [done|]. split; [done|].
  by rewrite Hsp.
Defined.

(** ** What one [CheckRunning] does, from any state *)

Section Refill.

Context (E : Env).


Lemma refill_effect fuel : forall s,
  FileNames E <> [] ->
  length (cmds s) - NextURLNo s <= fuel ->
  exists s' new,
    (refill E fuel s).2 = Ok tt s'
    /\ Processes s' = Processes s ++ new
    /\ length new = Nat.min (ParalleledNum E - length (Processes s))
                            (length (cmds s) - NextURLNo s)
    /\ NextURLNo s' = NextURLNo s + length new
    /\ clock s' = clock s + length new
    /\ length (cmds s') = length (cmds s).
Proof.
  induction fuel as [|fuel IH]; intros s HF Hf.
  - exists s, []. rewrite refill_out_stop.
    + rewrite app_nil_r. simpl. repeat split; lia.
    + unfold has_slot. apply andb_false_iff. right. apply Nat.ltb_ge. lia.
  - destruct (has_slot E s) eqn:Hg.
    + destruct (has_slot_lookup E s Hg) as [c Hc].
      destruct (FileNames_lookup E (NextURLNo s) HF) as [t Ht].
      rewrite (refill_out_dispatch E fuel s c t) by done.
      apply has_slot_lt in Hg as [Hg1 Hg2].
      destruct (IH (dispatched E (slept 1 s) c t) HF)
        as (s' & new & Ho & HP & Hlen & HN & Hclk & Hcm).
      { simpl. rewrite length_insert. lia. }
      simpl in HP, Hlen, HN, Hclk, Hcm.
      rewrite length_insert in Hlen, Hcm. rewrite length_app in Hlen.
      simpl in Hlen.
      exists s', (child E (slept 1 s) c :: new).
      split; [done|]. split; [by rewrite HP, <- app_assoc|].
      simpl. repeat split; lia.
    + exists s, []. rewrite refill_out_stop by done.
      rewrite app_nil_r. simpl.
      unfold has_slot in Hg. apply andb_false_iff in Hg as [Hg|Hg];
        apply Nat.ltb_ge in Hg; repeat split; lia.
Qed.

End Refill.


(** X4: what one [CheckRunning] changes, from any state, when
    [FileNames] is not empty.  The children that have not exited stay, in
    their order; behind them come new children, as many as the smaller
    of the free slots and the Jobs not yet dispatched; the cursor and
    the clock (one second of sleep per dispatch) advance by that
    number. *)
Theorem CheckRunning_effect (E : Env) (s : State) :
  FileNames E <> [] ->
  let alive := List.filter (running E (clock s)) (Processes s) in
  exists s' new,
    (CheckRunning E s).2 = Ok tt s'
    /\ Processes s' = alive ++ new
    /\ length new = Nat.min (ParalleledNum E - length alive)
                            (length (cmds s) - NextURLNo s)
    /\ NextURLNo s' = NextURLNo s + length new
    /\ clock s' = clock s + length new
    /\ length (cmds s') = length (cmds s).
Proof.
  intros HF alive. rewrite CheckRunning_out.
  apply (refill_effect E _ (reaped E s) HF). done.
Qed.

Lemma CheckRunning_effect_witness :
  exists s' new,
    (CheckRunning env_paralled
       (init (cmds_paralled paralled_folders 5 (FileNames env_paralled)))).2
    = Ok tt s'
    /\ Processes s' = new /\ length new = 8 /\ NextURLNo s' = 8
    /\ clock s' = 8.
Proof.
  destruct (CheckRunning_effect env_paralled
    (init (cmds_paralled paralled_folders 5 (FileNames env_paralled))))
    as (s' & new & Ho & HP & Hlen & HN & Hclk & _); [discriminate|].
  exists s', new. split; [exact Ho|]. split; [exact HP|].
  split; [exact Hlen|]. split; [by rewrite HN, Hlen | by rewrite Hclk, Hlen].
Defined.

(** ** Children over time *)

Section Lifetimes.

Context (E : Env).

Lemma exited_by_later now now' p :
  now <= now' -> exited_by E now p -> exited_by E now' p.
Proof. intros Hle (d & Hd & Hp). exists d. split; [done | lia]. Qed.

Lemma not_running_exited now p :
  running E now p = false -> exited_by E now p.
Proof.
  unfold running, exit_status, exited_by.
  destruct (runtime E (pid p)) as [d|]; [|done].
  destruct (Nat.leb_spec (started p + d) now); [|done].
  intros _. by exists d.
Qed.

Lemma gone_exited_sleep secs s :
  gone_exited E s -> gone_exited E (slept secs s).
Proof.
  intros H p Hp. rewrite spawned_slept in Hp.
  destruct (H p Hp) as [Hin|Hex]; [by left|].
  right. eapply exited_by_later; [|exact Hex]. simpl. lia.
Qed.

Lemma gone_exited_reap s : gone_exited E s -> gone_exited E (reaped E s).
Proof.
  intros H p Hp. rewrite spawned_reaped in Hp.
  destruct (H p Hp) as [Hin|Hex]; [|by right].
  destruct (running E (clock s) p) eqn:Hrun.
  - left. simpl. by apply elem_of_filter.
  - right. by apply not_running_exited.
Qed.

Lemma gone_exited_dispatch s c t :
  gone_exited E s -> gone_exited E (dispatched E s c t).
Proof.
  intros H p Hp. rewrite spawned_dispatched in Hp. simpl.
  apply elem_of_app in Hp as [Hp|Hp].
  - destruct (H p Hp) as [Hin|Hex]; [|by right].
    left. apply elem_of_app. by left.
  - left. apply elem_of_app. by right.
Qed.

End Lifetimes.

(** X5: a handle leaves [Processes] only after its process has exited:
    in the state in which a run returned or was cut off, every child
    created so far is still in [Processes] or has exited by then. *)
Theorem removed_children_have_exited (E : Env) (queue : list Job)
    (fuel : nat) :
  holds_unless_raised (gone_exited E) (run E queue fuel).2.
Proof.
  apply run_holds.
  - apply gone_exited_sleep.
  - apply gone_exited_reap.
  - intros s c t Hs _ _ _. by apply gone_exited_dispatch, gone_exited_sleep.
  - intros p Hp. by apply elem_of_nil in Hp.
Qed.

(** X6: with a parallelism limit of 1 the Jobs run one after another:
    whenever a child is created, every child created before it has
    exited. *)
Theorem one_slot_runs_one_at_a_time (E : Env) (queue : list Job)
    (fuel : nat) :
  ParalleledNum E = 1 ->
  holds_unless_raised (one_at_a_time E) (run E queue fuel).2.
Proof.
  intros HN.
  assert (H : holds_unless_raised
                (fun s => gone_exited E s /\ one_at_a_time E s)
                (run E queue fuel).2).
  { apply run_holds.
    - intros secs s [H1 H2]. split; [by apply gone_exited_sleep|].
      unfold one_at_a_time. by rewrite spawned_slept.
    - intros s [H1 H2]. split; [by apply gone_exited_reap|].
      unfold one_at_a_time. by rewrite spawned_reaped.
    - intros s c t [H1 H2] Hg _ _.
      split; [by apply gone_exited_dispatch, gone_exited_sleep|].
      apply has_slot_lt in Hg as [Hg _]. rewrite HN in Hg.
      assert (HP : Processes s = [])
        by (destruct (Processes s); [done | simpl in Hg; lia]).
      intros i j p q Hij Hi Hj. rewrite spawned_dispatched in Hi, Hj.
      rewrite spawned_slept in Hi, Hj.
      apply lookup_app_Some in Hj as [Hj|[Hge Hj]].
      + rewrite lookup_app_l in Hi by (apply lookup_lt_Some in Hj; lia).
        by eapply H2.
      + destruct (j - length (spawned (log s))) as [|n] eqn:Hn; [|done].
        simpl in Hj. injection Hj as <-.
        rewrite lookup_app_l in Hi by lia.
        destruct (H1 p) as [Hin|Hex].
        * by eapply list_elem_of_lookup_2.
        * rewrite HP in Hin. by apply elem_of_nil in Hin.
        * eapply exited_by_later; [|exact Hex]. simpl. lia.
    - split.
      + intros p Hp. by apply elem_of_nil in Hp.
      + intros i j p q _ Hi. done. }
  destruct (run E queue fuel).2 as [[] s|e s|s]; simpl in *;
    [by destruct H | done | by destruct H].
Qed.

Lemma one_slot_witness :
  let queue := cmds_one paralled_folders 2 (FileNames env_one_slot) in
  exists s, (run env_one_slot queue 5).2 = Ok tt s
    /\ one_at_a_time env_one_slot s
    /\ started <$> spawned (log s) = [1; 62].
Proof.
  cbv zeta.
  pose proof (one_slot_runs_one_at_a_time env_one_slot
    (cmds_one paralled_folders 2 (FileNames env_one_slot)) 5 eq_refl) as H.
  assert (Ho : exists s, (run env_one_slot
      (cmds_one paralled_folders 2 (FileNames env_one_slot)) 5).2 = Ok tt s
      /\ started <$> spawned (log s) = [1; 62]).
  { eexists. split; [vm_compute; reflexivity|]. reflexivity. }
  destruct Ho as (s & Ho & Hst). rewrite Ho in H.
  exists s. split; [exact Ho|]. split; [exact H | exact Hst].
Defined.

(** X7: pacing.  In every run the first child is created no earlier than
    one second after the start of the script, and two children created
    one after the other are at least one second apart on the script's
    clock: no two children start in the same second. *)
Theorem dispatches_are_paced (E : Env) (queue : list Job) (fuel : nat) :
  holds_unless_raised paced (run E queue fuel).2.
Proof.
  apply run_holds.
  - intros secs s [H1 H2]. unfold paced. rewrite spawned_slept.
    split; [|done]. intros i p Hi. destruct (H1 i p Hi). simpl. lia.
  - intros s [H1 H2]. unfold paced. by rewrite spawned_reaped.
  - intros s c t [H1 H2] _ _ _. unfold paced.
    rewrite spawned_dispatched, spawned_slept, length_app. simpl length.
    split.
    + intros i p Hi. apply lookup_app_Some in Hi as [Hi|[Hge Hi]].
      * destruct (H1 i p Hi). apply lookup_lt_Some in Hi. simpl. lia.
      * destruct (i - length (spawned (log s))) as [|n] eqn:Hn; [|done].
        simpl in Hi. injection Hi as <-. simpl. lia.
    + intros i j p q Hij Hi Hj.
      apply lookup_app_Some in Hj as [Hj|[Hge Hj]].
      * rewrite lookup_app_l in Hi by (apply lookup_lt_Some in Hj; lia).
        by eapply H2.
      * destruct (j - length (spawned (log s))) as [|n] eqn:Hn; [|done].
        simpl in Hj. injection Hj as <-.
        rewrite lookup_app_l in Hi by lia.
        destruct (H1 i p Hi). simpl. lia.
  - split.
    + intros i p Hi. done.
    + intros i j p q _ Hi. done.
Qed.

(** X8: the queue is changed in place, one seed per dispatch.  In the
    state in which a run returned or was cut off, [cmds] has the length
    it was built with, every entry before the cursor is the entry as
    built followed by exactly one seed, and every entry from the cursor
    on is as built. *)
Theorem queue_entries_seeded_once (E : Env) (queue : list Job) (fuel : nat) :
  holds_unless_raised (seeded_once queue) (run E queue fuel).2.
Proof.
  apply run_holds; try done.
  - intros s c t [Hlen H] Hg Hc _.
    apply has_slot_lt in Hg as [_ Hg]. split.
    + simpl. by rewrite length_insert.
    + intros k c' Hk. destruct (H k c' Hk) as [Hlt Hge]. simpl. split.
      * intros Hk'. destruct (decide (k = NextURLNo s)) as [->|Hne].
        -- rewrite Hge in Hc by lia. injection Hc as ->.
           exists (seed_of E (slept 1 s)).
           apply list_lookup_insert_eq. lia.
        -- rewrite list_lookup_insert_ne by done. apply Hlt. lia.
      * intros Hk'. rewrite list_lookup_insert_ne by lia. apply Hge. lia.
  - split; [done|]. intros k c Hk. split; [simpl; lia | done].
Qed.

(** ** The format of the seed *)

Lemma civil_bounds z :
  let '(y, m, d) := DateTime.civil_from_days z in
  (1 <= m <= 12)%Z /\ (1 <= d <= 31)%Z.
Proof.
  unfold DateTime.civil_from_days. cbv zeta.
  set (zz := (z + 719468)%Z).
  set (era := (zz / 146097)%Z).
  set (doe := (zz - era * 146097)%Z).
  assert (Hdoe : (0 <= doe <= 146096)%Z).
  { unfold doe, era. Z.to_euclidean_division_equations. lia. }
  clearbody doe. clear zz era.
  set (yoe := ((doe - doe / 1460 + doe / 36524 - doe / 146096) / 365)%Z).
  set (doy := (doe - (365 * yoe + yoe / 4 - yoe / 100))%Z).
  assert (Hdoy : (0 <= doy <= 365)%Z).
  { unfold doy, yoe. Z.to_euclidean_division_equations. lia. }
  clearbody doy. clear yoe.
  set (mp := ((5 * doy + 2) / 153)%Z).
  assert (Hmp : (0 <= mp <= 11)%Z).
  { unfold mp. Z.to_euclidean_division_equations. lia. }
  assert (Hd : (1 <= doy - (153 * mp + 2) / 5 + 1 <= 31)%Z).
  { unfold mp. Z.to_euclidean_division_equations. lia. }
  clearbody mp.
  destruct (Z.ltb_spec mp 10); split; lia.
Qed.

Lemma is_digit_digit k : (0 <= k <= 9)%Z -> is_digit (DateTime.digit k) = true.
Proof.
  intros H.
  assert (Hk : (k = 0 \/ k = 1 \/ k = 2 \/ k = 3 \/ k = 4 \/ k = 5 \/ k = 6
                \/ k = 7 \/ k = 8 \/ k = 9)%Z) by lia.
  repeat (destruct Hk as [->|Hk]; [reflexivity|]). by subst.
Qed.

Lemma all_digits_two_digits n :
  (0 <= n <= 99)%Z -> all_digits (DateTime.two_digits n) = true.
Proof.
  intros H. unfold DateTime.two_digits. cbn [all_digits].
  rewrite !is_digit_digit; [done | |];
    Z.to_euclidean_division_equations; lia.
Qed.

Lemma all_digits_app a b :
  all_digits (a +:+ b) = all_digits a && all_digits b.
Proof.
  induction a as [|c a IH]; simpl; [done|]. by rewrite IH, andb_assoc.
Qed.

Lemma now_fields_bounds h u :
  let dt := DateTime.now h u in
  (1 <= DateTime.month dt <= 12)%Z /\ (1 <= DateTime.day dt <= 31)%Z
  /\ (0 <= DateTime.hour dt <= 23)%Z /\ (0 <= DateTime.minute dt <= 59)%Z
  /\ (0 <= DateTime.second dt <= 59)%Z.
Proof.
  unfold DateTime.now, DateTime.fields_at. cbv zeta.
  pose proof (civil_bounds ((u + h) / 86400)) as Hc.
  destruct (DateTime.civil_from_days ((u + h) / 86400)) as [[y m] d].
  cbn [DateTime.month DateTime.day DateTime.hour DateTime.minute
       DateTime.second].
  destruct Hc as [Hm Hd].
  split; [done|]. split; [done|].
  repeat split; Z.to_euclidean_division_equations; lia.
Qed.

(** X9: whatever the instant and the host's time zone, the seed is a
    string of exactly ten characters, all of them decimal digits (so it
    never holds a sign, a blank or a separator): two digits each for a
    month 01-12, a day 01-31, an hour 00-23, a minute and a second
    00-59. *)
Theorem seed_is_ten_digits (h u : Z) :
  String.length (seed_at h u) = 10
  /\ all_digits (seed_at h u) = true
  /\ (1 <= DateTime.month (DateTime.now h u) <= 12)%Z
  /\ (1 <= DateTime.day (DateTime.now h u) <= 31)%Z
  /\ (0 <= DateTime.hour (DateTime.now h u) <= 23)%Z
  /\ (0 <= DateTime.minute (DateTime.now h u) <= 59)%Z
  /\ (0 <= DateTime.second (DateTime.now h u) <= 59)%Z.
Proof.
  pose proof (now_fields_bounds h u) as Hb. cbv zeta in Hb.
  destruct Hb as (Hm & Hd & HH & HM & HS).
  split; [reflexivity|]. split; [|done].
  rewrite seed_at_host_fields. unfold DateTime.strftime_mdHMS.
  rewrite !all_digits_app, !all_digits_two_digits; [done | lia ..].
Qed.

(** X10: two dispatches whose clock readings are one second apart get
    different seeds, and the seeds differ in their last two characters,
    the seconds field; this holds on every host, whatever its time
    zone. *)
Theorem seeds_one_second_apart_differ (h u : Z) :
  substring 8 2 (seed_at h u) <> substring 8 2 (seed_at h (u + 1))
  /\ seed_at h u <> seed_at h (u + 1).
Proof. apply seed_one_second_apart. Qed.

(** ** The list of triples *)

Lemma uint_digits d : all_digits (NilEmpty.string_of_uint d) = true.
Proof. induction d; simpl; try done. Qed.

Lemma str_digits z : (0 <= z)%Z -> all_digits (PyInt.str z) = true.
Proof.
  intros Hz. unfold PyInt.str. destruct z as [|p|p]; [done| |lia].
  simpl. destruct (Pos.to_uint p); try done; apply (uint_digits (_ _)).
Qed.

Lemma append_assoc (a b c : string) : (a +:+ b) +:+ c = a +:+ (b +:+ c).
Proof.
  induction a as [|x a IH]; [done|].
  change (String x ((a +:+ b) +:+ c) = String x (a +:+ (b +:+ c))).
  by rewrite IH.
Qed.






(** ** The layout variants *)

Section LayoutFacts.

Import Layout.

Lemma tag_with_text txt e : tag (with_text txt e) = tag e.
Proof. by destruct e. Qed.

Lemma set_texts_overwrite name a b root :
  set_texts name a (set_texts name b root) = set_texts name a root.
Proof.
  destruct root as [t at' x tl c]. simpl. f_equal. rewrite map_map.
  apply map_ext. intros e.
  destruct (String.eqb (tag e) name) eqn:Ht;
    rewrite ?tag_with_text, ?Ht; [by destruct e | done].
Qed.

Lemma set_texts_swap name1 name2 a b root :
  name1 <> name2 ->
  set_texts name1 a (set_texts name2 b root)
  = set_texts name2 b (set_texts name1 a root).
Proof.
  intros Hne. destruct root as [t at' x tl c]. simpl. f_equal.
  rewrite !map_map. apply map_ext. intros e.
  destruct (String.eqb (tag e) name1) eqn:H1;
    destruct (String.eqb (tag e) name2) eqn:H2;
    rewrite ?tag_with_text, ?H1, ?H2; try done.
  apply String.eqb_eq in H1, H2. congruence.
Qed.

(** A variant of a variant is a variant of the original: the earlier
    round leaves nothing behind. *)
Lemma variant_variant name c c' root :
  variant name c' (variant name c root) = variant name c' root.
Proof.
  unfold variant.
  rewrite (set_texts_swap "BotCount" "NameLayout") by done.
  by rewrite !set_texts_overwrite.
Qed.

Context (L : Lib) (directory name extension : string).

Let path (c : Z) : string := join L directory (variant_name name extension c).

Lemma fold_variants cs : forall root0 root w,
  (forall c, variant name c root = variant name c root0) ->
  let st := fold_left (variant_step L directory name extension) cs (root, w) in
  (forall c, variant name c st.1 = variant name c root0)
  /\ Footprints.console st.2 = Footprints.console w
  /\ (forall p, (forall c, c ∈ cs -> p <> path c) ->
        Footprints.files st.2 !! p = Footprints.files w !! p)
  /\ (NoDup (path <$> cs) ->
      forall c, c ∈ cs ->
        Footprints.files st.2 !! path c
        = Some (serialize L (variant name c root0))).
Proof.
  induction cs as [|c0 cs IH]; intros root0 root w Hroot; cbv zeta.
  - simpl. split; [done|]. split; [done|]. split; [done|].
    intros _ c Hc. by apply elem_of_nil in Hc.
  - simpl fold_left.
    fold (variant name c0 root). rewrite Hroot.
    set (w1 := Footprints.write _ _ w).
    destruct (IH root0 (variant name c0 root0) w1) as (H1 & H2 & H3 & H4).
    { intros c. apply variant_variant. }
    cbv zeta in H1, H2, H3, H4.
    split; [exact H1|]. split; [by rewrite H2|]. split.
    + intros p Hp. rewrite H3.
      * unfold w1. simpl. apply lookup_insert_ne.
        intros Heq. apply (Hp c0); [by left | done].
      * intros c Hc. apply Hp. by right.
    + intros Hnd c Hc. rewrite fmap_cons in Hnd.
      apply NoDup_cons in Hnd as [Hc0 Hnd].
      apply elem_of_cons in Hc as [->|Hc]; [|by apply H4].
      rewrite H3.
      * unfold w1. simpl. apply lookup_insert_eq.
      * intros c Hc Heq. apply Hc0. rewrite Heq.
        apply list_elem_of_fmap. by exists c.
Qed.

End LayoutFacts.

Lemma length_append (a b : string) :
  String.length (a +:+ b) = String.length a + String.length b.
Proof.
  induction a as [|x a IH]; [done|].
  change (S (String.length (a +:+ b)) = S (String.length a + String.length b)).
  by rewrite IH.
Qed.

Lemma append_inj_r (a b e : string) : a +:+ e = b +:+ e -> a = b.
Proof.
  revert b. induction a as [|x a IH]; intros [|y b] H.
  - done.
  - apply (f_equal String.length) in H.
    change (String.length e = S (String.length (b +:+ e))) in H.
    rewrite length_append in H. lia.
  - apply (f_equal String.length) in H.
    change (S (String.length (a +:+ e)) = String.length e) in H.
    rewrite length_append in H. lia.
  - change (String x (a +:+ e) = String y (b +:+ e)) in H.
    injection H as -> H. f_equal. by apply IH.
Qed.

Lemma variant_name_inj name extension c c' :
  c ∈ PyInt.range3 10 110 10 -> c' ∈ PyInt.range3 10 110 10 ->
  Layout.variant_name name extension c = Layout.variant_name name extension c' ->
  c = c'.
Proof.
  intros Hc Hc' H. unfold Layout.variant_name in H.
  apply String.app_inj in H.
  change (String "r" (PyInt.str c +:+ extension)
          = String "r" (PyInt.str c' +:+ extension)) in H.
  injection H as H. apply append_inj_r in H.
  apply list_elem_of_In in Hc, Hc'. simpl in Hc, Hc'.
  repeat (destruct Hc as [<-|Hc]; [|]);
    repeat (destruct Hc' as [<-|Hc']; [|]); try done.
Qed.

Lemma variant_name_not_original name extension c :
  Layout.variant_name name extension c <> name +:+ extension.
Proof.
  unfold Layout.variant_name. intros H. apply String.app_inj in H.
  apply (f_equal String.length) in H.
  change (S (String.length (PyInt.str c +:+ extension))
          = String.length extension) in H.
  rewrite length_append in H. lia.
Qed.

(** X12: what [layoutVariant.py] does with one layout file that parses,
    [os.path.join] being one-to-one in the file name.  It prints one
    line and writes ten files, [name r 10 ext] to [name r 100 ext] beside
    the original.  The file of bot count [c] holds the ORIGINAL tree
    with only [BotCount] and [NameLayout] set for [c]: although the one
    tree is changed in place round after round, no earlier round shows
    in a later file.  Every other file is left as it was, the original
    among them. *)
Theorem layout_variants_written (L : Layout.Lib) (filePath content : string)
    (root : Layout.Element) (w : Footprints.World)
    (directory filename name extension : string) :
  Footprints.files w !! filePath = Some content ->
  Layout.parse L content = Some root ->
  Layout.split L filePath = (directory, filename) ->
  Layout.splitext L filename = (name, extension) ->
  (forall a b, Layout.join L directory a = Layout.join L directory b -> a = b) ->
  let path c :=
    Layout.join L directory (Layout.variant_name name extension c) in
  exists w',
    Layout.variants_of_file L filePath w = Footprints.Done w'
    /\ Footprints.console w'
       = Footprints.console w ++ ["Generating variant of: " +:+ filePath]
    /\ (forall c, c ∈ PyInt.range3 10 110 10 ->
          Footprints.files w' !! path c
          = Some (Layout.serialize L (Layout.variant name c root)))
    /\ NoDup (path <$> PyInt.range3 10 110 10)
    /\ (forall p, (forall c, c ∈ PyInt.range3 10 110 10 -> p <> path c) ->
          Footprints.files w' !! p = Footprints.files w !! p)
    /\ (filePath = Layout.join L directory (name +:+ extension) ->
          Footprints.files w' !! filePath = Some content).
Proof.
  intros Hfile Hparse Hsplit Hext Hjoin path.
  assert (Hnd : NoDup (path <$> PyInt.range3 10 110 10)).
  { apply NoDup_fmap_2_strong.
    - intros c c' Hc Hc' H. apply Hjoin in H.
      by eapply variant_name_inj.
    - apply (bool_decide_unpack _). by vm_compute. }
  set (w0 := Footprints.print ("Generating variant of: " +:+ filePath) w).
  assert (Hw0 : Footprints.files w0 = Footprints.files w) by done.
  unfold Layout.variants_of_file. cbv zeta. fold w0.
  rewrite Hsplit, Hext, Hw0, Hfile, Hparse.
  destruct (fold_variants L directory name extension
              (PyInt.range3 10 110 10) root root w0)
    as (_ & Hcon & Hother & Hwritten); [done|].
  cbv zeta in Hcon, Hother, Hwritten.
  eexists. split; [reflexivity|]. split; [exact Hcon|].
  split; [by apply Hwritten|]. split; [exact Hnd|].
  split; [intros p Hp; by rewrite Hother|].
  intros Horig. rewrite Hother; [by rewrite Hw0|].
  intros c Hc Heq. rewrite Horig in Heq. apply Hjoin in Heq.
  symmetry in Heq. by apply variant_name_not_original in Heq.
Qed.

Lemma layout_variants_witness :
  exists w',
    Layout.variants_of_file layout_toy_lib "D:\layouts\Sv5.xlayo"
      layout_toy_world = Footprints.Done w'
    /\ Footprints.files w' !! "D:\layouts\Sv5r100.xlayo"
       = Some "NameLayout=Sv5r100;BotCount=100;Tiers="
    /\ Footprints.files w' !! "D:\layouts\Sv5.xlayo" = Some "<Layout/>".
Proof.
  destruct (layout_variants_written layout_toy_lib "D:\layouts\Sv5.xlayo"
              "<Layout/>" layout_toy_tree layout_toy_world
              "D:\layouts" "Sv5.xlayo" "Sv5" ".xlayo")
    as (w' & Ho & _ & Hw & _ & _ & Horig); try reflexivity.
  - intros a b H. unfold Layout.join, layout_toy_lib in H.
    by do 2 apply String.app_inj in H.
  - exists w'. split; [exact Ho|]. split; [|by apply Horig].
    apply (Hw 100%Z). apply list_elem_of_In. simpl. tauto.
Defined.

(** X13: what a variant is.  The root keeps its tag, its attributes, its
    own text and the number and order of its children.  A direct child
    tagged [BotCount] gets the bot count as its text, one tagged
    [NameLayout] gets [name r count], every other child is kept as it
    is; in every case the child keeps its tag and its own children, so a
    [BotCount] deeper in the tree is never changed. *)
Theorem variant_changes_direct_children_only (name : string) (c : Z)
    (root : Layout.Element) :
  let root' := Layout.variant name c root in
  Layout.tag root' = Layout.tag root
  /\ Layout.text root' = Layout.text root
  /\ length (Layout.children root') = length (Layout.children root)
  /\ forall i e, Layout.children root !! i = Some e ->
       exists e', Layout.children root' !! i = Some e'
         /\ Layout.tag e' = Layout.tag e
         /\ Layout.children e' = Layout.children e
         /\ (Layout.tag e = "BotCount" ->
               e' = Layout.with_text (PyInt.str c) e)
         /\ (Layout.tag e = "NameLayout" ->
               e' = Layout.with_text (name +:+ "r" +:+ PyInt.str c) e)
         /\ (Layout.tag e <> "BotCount" -> Layout.tag e <> "NameLayout" ->
               e' = e).
Proof.
  destruct root as [t a x tl ch]. cbv zeta. unfold Layout.variant. simpl.
  split; [done|]. split; [done|]. split; [by rewrite !length_map|].
  intros i e Hi. rewrite map_map.
  change (map ?f ch) with (f <$> ch). rewrite list_lookup_fmap, Hi. simpl.
  eexists. split; [reflexivity|].
  destruct (String.eqb_spec (Layout.tag e) "BotCount") as [HB|HB].
  - rewrite tag_with_text, HB. simpl. destruct e. simpl in *. subst.
    repeat split; try done.
  - destruct (String.eqb_spec (Layout.tag e) "NameLayout") as [HN|HN].
    + destruct e. simpl in *. subst. repeat split; try done.
    + repeat split; try done.
Qed.

(** X14: a layout file that is missing, or whose text does not parse,
    ends the script there: only the line announcing it is printed, no
    file is written, and the paths that follow it are not processed. *)
Theorem layout_failure_stops_the_script (L : Layout.Lib) (filePath : string)
    (rest : list string) (w : Footprints.World) :
  Footprints.files w !! filePath = None
  \/ (exists content, Footprints.files w !! filePath = Some content
                      /\ Layout.parse L content = None) ->
  let w' := Footprints.print ("Generating variant of: " +:+ filePath) w in
  Layout.variants_of_file L filePath w = Footprints.Failed w'
  /\ Layout.create_variant_files L (filePath :: rest) w = Footprints.Failed w'
  /\ Footprints.files w' = Footprints.files w.
Proof.
  intros H w'.
  assert (Ho : Layout.variants_of_file L filePath w = Footprints.Failed w').
  { unfold Layout.variants_of_file. cbv zeta. fold w'.
    destruct (Layout.split L filePath) as [directory filename].
    destruct (Layout.splitext L filename) as [name extension].
    change (Footprints.files w') with (Footprints.files w).
    destruct H as [-> | (content & -> & ->)]; done. }
  split; [exact Ho|]. split; [|done]. simpl. by rewrite Ho.
Qed.

Lemma layout_failure_witness :
  Layout.create_variant_files layout_toy_lib
    ["D:\layouts\missing.xlayo"; "D:\layouts\Sv5.xlayo"] layout_toy_world
  = Footprints.Failed
      (Footprints.print "Generating variant of: D:\layouts\missing.xlayo"
         layout_toy_world).
Proof.
  destruct (layout_failure_stops_the_script layout_toy_lib
              "D:\layouts\missing.xlayo" ["D:\layouts\Sv5.xlayo"]
              layout_toy_world) as (_ & H & _); [by left|].
  exact H.
Defined.

Lemma str_no_r (z : Z) : occurs "r" (PyInt.str z) = false.
Proof.
  destruct (Z.le_gt_cases 0 z) as [Hz|Hz];
    [by apply digits_no_r, str_digits|].
  destruct z as [|p|p]; [done|lia|].
  unfold PyInt.str. simpl.
  destruct (Pos.to_uint p); try done;
    apply (digits_no_r _ (uint_digits (_ _))).
Qed.

(** X15: the two scripts agree on names.  For a layout [name] and a bot
    count [c], the launcher given the instance [name r c] looks for the
    layout file [InstanceFolder\name r c .xlayo], which is the file name
    [layoutVariant.py] writes for [c], and sends the output to
    [experimentFolder\name]: the suffix that one script appends is the
    one the other cuts off, even when [name] itself holds the letter
    r. *)
Theorem launcher_finds_layout_variants (F : Folders) (name setting
    controller : string) (c : Z) :
  let instance := name +:+ "r" +:+ PyInt.str c in
  job_paralled F (instance, setting, controller) !! 2
  = Some (InstanceFolder F +:+ "\" +:+ Layout.variant_name name ".xlayo" c)
  /\ job_paralled F (instance, setting, controller) !! 5
     = Some (experimentFolder F +:+ "\" +:+ name)
  /\ base_instance instance = name.
Proof.
  intros instance.
  assert (Hb : base_instance instance = name).
  { apply (base_instance_cut name (PyInt.str c)), str_no_r. }
  split; [|split; [|exact Hb]].
  - simpl. unfold path_of, Layout.variant_name, instance.
    by rewrite !append_assoc.
  - simpl. unfold outputDir. by rewrite Hb.
Qed.

Section FixAll.
Import Footprints FootprintsFacts.

Lemma fix_file_frame P file w :
  let w' := final_world (fix_file P file w) in
  (forall p, p <> file -> files w' !! p = files w !! p)
  /\ (forall p, is_Some (files w' !! p) <-> is_Some (files w !! p))
  /\ exists lines, console w' = console w ++ lines.
Proof.
  unfold fix_file. cbn [print files console].
  destruct (files w !! file) as [text|] eqn:Hfile.
  - destruct (has_column "NBots" _ && has_column "Instance" _).
    + destruct (mapM _ _) as [rows'|]; simpl.
      * split; [|split].
        -- intros p Hp. by rewrite lookup_insert_ne.
        -- intros p. destruct (decide (p = file)) as [->|Hp].
           ++ rewrite lookup_insert_eq, Hfile. by split; eexists.
           ++ by rewrite lookup_insert_ne.
        -- by eexists.
      * split; [done|]. split; [done|]. by eexists.
    + simpl. split; [done|]. split; [done|].
      rewrite <- app_assoc. by eexists.
  - simpl. split; [done|]. split; [done|]. by eexists.
Qed.

End FixAll.

(** X16: whatever the files hold and however the run ends,
    [fixFootprints.py] changes no file but those it was given, creates
    no file and removes none, and only adds lines to what was
    printed. *)
Theorem fix_all_keeps_other_files (P : Footprints.Pandas)
    (names : list string) (w : Footprints.World) :
  let w' := final_world (Footprints.fix_all P names w) in
  (forall p, p ∉ names -> Footprints.files w' !! p = Footprints.files w !! p)
  /\ (forall p, is_Some (Footprints.files w' !! p)
                <-> is_Some (Footprints.files w !! p))
  /\ exists lines, Footprints.console w' = Footprints.console w ++ lines.
Proof.
  revert w. induction names as [|file names IH]; intros w.
  - simpl. split; [done|]. split; [done|]. exists []. by rewrite app_nil_r.
  - destruct (fix_file_frame P file w) as (Hf & Hd & lines & Hc).
    cbn [Footprints.fix_all]. cbv zeta in *.
    destruct (Footprints.fix_file P file w) as [w1|w1]; simpl in Hf, Hd, Hc.
    + destruct (IH w1) as (Hf' & Hd' & lines' & Hc'). cbv zeta in *.
      split; [|split].
      * intros p Hp. apply not_elem_of_cons in Hp as [Hp Hps].
        by rewrite Hf', Hf.
      * intros p. by rewrite Hd', Hd.
      * exists (lines ++ lines'). by rewrite Hc', Hc, app_assoc.
    + simpl. split; [|split; [done|by eexists]].
      intros p Hp. apply not_elem_of_cons in Hp as [Hp Hps]. by apply Hf.
Qed.

Section FixTwice.
Import Footprints FootprintsFacts.

Lemma fix_row_length P cols row row' :
  fix_row P cols row = Some row' -> length row' = length row.
Proof.
  unfold fix_row. intros H.
  destruct (cell cols row "Instance") as [a|]; [|done].
  destruct (cell cols row "NBots") as [b|]; [|done].
  destruct (index_of "Instance" cols) as [i|]; [|done].
  simpl in H. injection H as <-. by rewrite length_insert.
Qed.

Lemma fix_rows P cols rows :
  "NBots" ∈ cols -> "Instance" ∈ cols ->
  Forall (fun row => length row = length cols) rows ->
  exists rows', mapM (fix_row P cols) rows = Some rows'
    /\ Forall2 (row_fixed P cols) rows rows'
    /\ Forall (fun row => length row = length cols) rows'.
Proof.
  intros Hn Hi Hrect.
  destruct (mapM_is_Some_2 (fix_row P cols) rows) as [rows' Hm].
  { eapply Forall_impl; [exact Hrect|]. intros row Hlen.
    by apply fix_row_is_Some. }
  exists rows'. split; [exact Hm|]. apply mapM_Some_1 in Hm. split.
  - eapply Forall2_impl; [exact Hm|]. intros row row'. apply fix_row_fixed.
  - clear Hn Hi. induction Hm as [|row row' rows rows' Hr _ IH].
    + constructor.
    + apply Forall_cons in Hrect as [Hlen Hrect]. constructor.
      * by rewrite (fix_row_length _ _ _ _ Hr).
      * by apply IH.
Qed.

Lemma fix_file_fixes P file text w rows' :
  files w !! file = Some text ->
  "NBots" ∈ columns (read_csv P text) ->
  "Instance" ∈ columns (read_csv P text) ->
  mapM (fix_row P (columns (read_csv P text))) (rows (read_csv P text))
  = Some rows' ->
  fix_file P file w
  = Done (write file
            (to_csv P {| columns := columns (read_csv P text);
                         rows := rows' |})
            (print ("fixing: " +:+ file) w)).
Proof.
  intros Hfile Hn Hi Hm. unfold fix_file. cbn [print files console].
  rewrite Hfile. unfold has_column.
  rewrite !bool_decide_eq_true_2 by done. cbn [andb]. by rewrite Hm.
Qed.

Lemma row_fixed_fixed P cols row row1 row2 :
  (forall s, fmt P (obj P s) = s) ->
  row_fixed P cols row row1 -> row_fixed P cols row1 row2 ->
  row_fixed_twice P cols row row2.
Proof.
  intros Hfmt (a & b & Ha & Hb & Ha1 & Hrest) (a1 & b1 & Ha1' & Hb1 & Ha2 & Hrest').
  rewrite Ha1 in Ha1'. injection Ha1' as <-.
  rewrite Hrest, Hb in Hb1 by done. injection Hb1 as <-.
  exists a, b. split; [done|]. split; [done|]. split.
  - rewrite Ha2, Hfmt. by rewrite !append_assoc.
  - intros name Hne. by rewrite Hrest', Hrest.
Qed.

End FixTwice.

(** X17: the fix is not idempotent.  When pandas reads back the frame it
    wrote and shows a stored name as it is, running [fixFootprints.py]
    twice on a file with both columns appends the bot count twice: each
    [Instance] cell ends up as the old value, the letter r, the [NBots]
    value, the letter r and the [NBots] value again, the other cells
    staying as they were. *)
Theorem fix_twice_appends_twice (P : Footprints.Pandas) (file text : string)
    (w : Footprints.World) :
  Footprints.files w !! file = Some text ->
  let df := Footprints.read_csv P text in
  Footprints.rectangular df ->
  "NBots" ∈ Footprints.columns df -> "Instance" ∈ Footprints.columns df ->
  (forall s, Footprints.fmt P (Footprints.obj P s) = s) ->
  (forall rows',
     mapM (Footprints.fix_row P (Footprints.columns df)) (Footprints.rows df)
     = Some rows' ->
     Footprints.read_csv P
       (Footprints.to_csv P {| Footprints.columns := Footprints.columns df;
                               Footprints.rows := rows' |})
     = {| Footprints.columns := Footprints.columns df;
          Footprints.rows := rows' |}) ->
  exists w1 w2 rows2,
    Footprints.fix_file P file w = Footprints.Done w1
    /\ Footprints.fix_file P file w1 = Footprints.Done w2
    /\ Footprints.files w2 !! file
       = Some (Footprints.to_csv P
                 {| Footprints.columns := Footprints.columns df;
                    Footprints.rows := rows2 |})
    /\ Forall2 (row_fixed_twice P (Footprints.columns df))
         (Footprints.rows df) rows2.
Proof.
  intros Hfile df Hrect Hn Hi Hfmt Hback.
  destruct (fix_rows P _ _ Hn Hi Hrect) as (rows1 & Hm1 & H1 & Hrect1).
  destruct (fix_rows P _ _ Hn Hi Hrect1) as (rows2 & Hm2 & H2 & _).
  pose proof (Hback _ Hm1) as Hread.
  eexists _, _, rows2. split; [by apply fix_file_fixes|]. split; [|split].
  - apply (fix_file_fixes P file
             (Footprints.to_csv P
                {| Footprints.columns := Footprints.columns df;
                   Footprints.rows := rows1 |})).
    + simpl. apply lookup_insert_eq.
    + by rewrite Hread.
    + by rewrite Hread.
    + rewrite Hread. exact Hm2.
  - simpl. rewrite Hread. simpl. apply lookup_insert_eq.
  - clear -Hfmt H1 H2. revert rows2 H2.
    induction H1 as [|row row1 rows rows1 Hr _ IH]; intros rows2 H2.
    + apply Forall2_nil_inv_l in H2 as ->. constructor.
    + apply Forall2_cons_inv_l in H2 as (row2 & rows2' & Hr' & H2 & ->).
      constructor; [by eapply row_fixed_fixed | by apply IH].
Qed.

Lemma fix_twice_witness :
  exists w1 w2,
    Footprints.fix_file csv_pandas "a/footprints.csv" csv_world
    = Footprints.Done w1
    /\ Footprints.fix_file csv_pandas "a/footprints.csv" w1
       = Footprints.Done w2
    /\ Footprints.files w2 !! "a/footprints.csv"
       = Some (String.concat (String "010" EmptyString)
                 ["Instance;NBots;Time"; "Sv5r60r60;60;3.5";
                  "Sv5r70r70;70;4.1"]).
Proof.
  destruct (fix_twice_appends_twice csv_pandas "a/footprints.csv"
              (String.concat (String "010" EmptyString)
                 ["Instance;NBots;Time"; "Sv5;60;3.5"; "Sv5;70;4.1"])
              csv_world)
    as (w1 & w2 & rows2 & H1 & H2 & _ & _).
  - reflexivity.
  - repeat constructor.
  - apply list_elem_of_In. simpl. tauto.
  - apply list_elem_of_In. simpl. tauto.
  - reflexivity.
  - intros rows' H. vm_compute in H. injection H as <-. reflexivity.
  - exists w1, w2. split; [exact H1|]. split; [exact H2|].
    vm_compute in H1. injection H1 as <-.
    vm_compute in H2. injection H2 as <-. reflexivity.
Defined.

Section Summary.

Lemma digits_end_digits d : all_digits d = true -> Re.digits_end d = true.
Proof.
  induction d as [|c d IH]; [done|]. simpl.
  intros [Hc Hd]%andb_true_iff. rewrite Hc. by apply IH.
Qed.

Lemma digits_end_r u d :
  occurs "010" u = false -> Re.digits_end (u +:+ String "r" d) = false.
Proof.
  induction u as [|c u IH]; intros Hu.
  - done.
  - simpl in Hu. apply orb_false_iff in Hu as [Hc Hu].
    change (Re.digits_end (String c (u +:+ String "r" d)) = false).
    simpl. destruct (is_digit c); [by apply IH|]. by rewrite Hc.
Qed.

Lemma suffix_matches_digits d :
  d <> "" -> all_digits d = true -> Re.suffix_matches (String "r" d) = true.
Proof.
  destruct d as [|c d]; [done|]. intros _. simpl.
  intros [Hc Hd]%andb_true_iff. by rewrite Hc, digits_end_digits.
Qed.

Lemma suffix_matches_early x u d :
  occurs "010" u = false ->
  Re.suffix_matches (String x (u +:+ String "r" d)) = false.
Proof.
  intros Hu. unfold Re.suffix_matches.
  destruct u as [|c u].
  - change (EmptyString +:+ String "r" d) with (String "r" d).
    by repeat case_match.
  - change (String c u +:+ String "r" d) with (String c (u +:+ String "r" d)).
    simpl in Hu. apply orb_false_iff in Hu as [_ Hu].
    rewrite (digits_end_r u d Hu), andb_false_r. by repeat case_match.
Qed.

Lemma lazy_more_cut u d :
  occurs "010" u = false -> d <> "" -> all_digits d = true ->
  Re.lazy_more (u +:+ String "r" d) = Some u.
Proof.
  intros Hu Hd Hdig. induction u as [|c u IH].
  - change (EmptyString +:+ String "r" d) with (String "r" d).
    destruct d as [|c d]; [done|]. cbn [Re.lazy_more].
    by rewrite (suffix_matches_digits (String c d)).
  - simpl in Hu. apply orb_false_iff in Hu as [Hc Hu].
    change (String c u +:+ String "r" d) with (String c (u +:+ String "r" d)).
    cbn [Re.lazy_more]. rewrite (suffix_matches_early c u d Hu).
    unfold Re.dot. rewrite Hc. simpl. by rewrite (IH Hu).
Qed.

End Summary.

(** X18: [csvToExcel.py] undoes [fixFootprints.py].  For a name that is
    not empty and holds no newline, and a run of digits [d], the group
    that the summary takes from [name r d] is [name]; it is also what the
    launcher cut from that instance name for its output directory. *)
Theorem summary_instance_undoes_fix (name d : string) :
  name <> "" -> occurs "010" name = false ->
  d <> "" -> all_digits d = true ->
  summary_instance (name +:+ "r" +:+ d) = Some name
  /\ summary_instance (name +:+ "r" +:+ d)
     = Some (base_instance (name +:+ "r" +:+ d)).
Proof.
  intros Hname Hnl Hd Hdig.
  assert (H : summary_instance (name +:+ "r" +:+ d) = Some name).
  { destruct name as [|c u]; [done|].
    simpl in Hnl. apply orb_false_iff in Hnl as [Hc Hu].
    change (String c u +:+ "r" +:+ d) with (String c (u +:+ String "r" d)).
    unfold summary_instance. cbn [Re.search Re.match_here].
    unfold Re.dot. rewrite Hc. cbn [negb].
    by rewrite (lazy_more_cut u d Hu Hd Hdig). }
  split; [exact H|]. rewrite H. f_equal. symmetry.
  apply (base_instance_cut name d). by apply digits_no_r.
Qed.

Lemma summary_instance_witness :
  summary_instance "Warehouser20" = Some "Warehouse"
  /\ summary_instance "Sv5r60r60" = Some "Sv5r60".
Proof.
  split.
  - by destruct (summary_instance_undoes_fix "Warehouse" "20") as [H _].
  - by destruct (summary_instance_undoes_fix "Sv5r60" "60") as [H _].
Defined.

Section SummaryShape.




End SummaryShape.


